(** * Shallow embedding of the SiS Lua debug adapter (src/src/debugger/luaDebugAdapter.ts)

    The adapter speaks a length-prefixed framing ([#<len>\n] + body) with the
    in-game debuggee, tokenizes launch command lines, routes debuggee
    messages to the IDE and runs a small session state machine
    (launch/attach, debuggee connect, stop).  Each module below embeds one
    part of the TypeScript source. *)

From Stdlib Require Import List Arith ZArith NArith Lia Bool.
From Stdlib Require Import Strings.Byte Strings.String Strings.Ascii.
From Stdlib Require QArith.QArith_base.
Import ListNotations.
Set Warnings "-register-all".

(* ===================================================================== *)
(** ** DebuggeeConnection: the framed-message reader ([onData]) *)
(* ===================================================================== *)

Module Framing.

(** [Buffer.indexOf(0x0a)]: the index of the first newline byte. *)
Fixpoint index_of_nl (buf : list byte) : option nat :=
  match buf with
  | [] => None
  | b :: rest =>
      if Byte.eqb b x0a then Some 0
      else option_map S (index_of_nl rest)
  end.

(** [buf.toString('ascii')] as character codes: Node clears the high bit of
    every byte before decoding. *)
Definition ascii_decode (bs : list byte) : list nat :=
  map (fun b => Nat.land (Byte.to_nat b) 127) bs.

(** [String.prototype.startsWith('#')]. *)
Definition starts_with_hash (s : list nat) : bool :=
  match s with
  | c :: _ => Nat.eqb c 35
  | [] => false
  end.

(** The result of [Number.parseInt]: [NaN], a finite integer, or an
    infinity (a digit string too large for a double). *)
Inductive js_int :=
  | JsNaN
  | JsFin (z : Z)
  | JsInf (positive_sign : bool).

(** [StrWhiteSpaceChar] restricted to the codes an ASCII-decoded header can
    hold (TAB, LF, VT, FF, CR, SPACE). *)
Definition is_js_space (c : nat) : bool :=
  ((9 <=? c) && (c <=? 13)) || Nat.eqb c 32.

Definition is_digit (c : nat) : bool := (48 <=? c) && (c <=? 57).

Fixpoint skip_space (s : list nat) : list nat :=
  match s with
  | c :: rest => if is_js_space c then skip_space rest else s
  | [] => []
  end.

(** The longest prefix of decimal digits, read as a number. *)
Fixpoint digits_prefix (s : list nat) : list nat :=
  match s with
  | c :: rest => if is_digit c then c :: digits_prefix rest else []
  | [] => []
  end.

Definition digits_value (ds : list nat) : Z :=
  fold_left (fun acc d => acc * 10 + Z.of_nat (d - 48))%Z ds 0%Z.

(** Doubles at or above [2^1024 - 2^970] round to infinity. *)
Definition js_overflow_bound : Z := (2 ^ 1024 - 2 ^ 970)%Z.

(** [Number.parseInt(s, 10)]: leading white space, an optional sign, then
    the longest run of decimal digits; no digit gives [NaN].  The exact
    integer is kept: a value of 2^53 or more is larger than any buffer
    length either way, so the comparisons of [onData] are unaffected by the
    rounding of doubles. *)
Definition parse_int10 (s : list nat) : js_int :=
  let s1 := skip_space s in
  let '(neg, s2) :=
    match s1 with
    | 45 :: rest => (true, rest)
    | 43 :: rest => (false, rest)
    | _ => (false, s1)
    end in
  match digits_prefix s2 with
  | [] => JsNaN
  | ds =>
      let v := digits_value ds in
      if (js_overflow_bound <=? v)%Z then JsInf (negb neg)
      else JsFin (if neg then (- v)%Z else v)
  end.

(** One pass of the [while (true)] loop body of [onData] on the buffer. *)
Inductive frame_result :=
  | NeedMore                                   (* [return] and wait      *)
  | Fatal                                      (* [onSocketClosed(); return] *)
  | Frame (body rest : list byte).             (* emit [body], keep [rest] *)

Definition frame_step (buf : list byte) : frame_result :=
  match index_of_nl buf with
  | None => NeedMore
  | Some nl =>
      let header := ascii_decode (firstn nl buf) in
      if negb (starts_with_hash header) then Fatal
      else
        match parse_int10 (tl header) with
        | JsNaN | JsInf _ => Fatal
        | JsFin size =>
            if (size <? 0)%Z then Fatal
            else
              let bodyStart := S nl in
              let bodyEnd := bodyStart + Z.to_nat size in
              if List.length buf <? bodyEnd then NeedMore
              else Frame (firstn (Z.to_nat size) (skipn bodyStart buf))
                         (skipn bodyEnd buf)
        end
  end.

(** What the connection reports to its owner: [onJsonMessage(body)] (the
    body bytes, which the source decodes as UTF-8 before the call) or
    [onSocketClosed()]. *)
Inductive conn_event :=
  | Message (body : list byte)
  | Closed.

(** The loop of [onData]; [fuel] only bounds the recursion, every [Frame]
    strictly shortens the buffer (see [drain_fuel_enough]). *)
Fixpoint drain_fuel (fuel : nat) (buf : list byte) : list conn_event * list byte :=
  match fuel with
  | O => ([], buf)
  | S f =>
      match frame_step buf with
      | NeedMore => ([], buf)
      | Fatal => ([Closed], buf)
      | Frame body rest =>
          let '(evs, buf') := drain_fuel f rest in (Message body :: evs, buf')
      end
  end.

Definition drain (buf : list byte) : list conn_event * list byte :=
  drain_fuel (S (List.length buf)) buf.

(** [onData(chunk)]: [this.buffer = Buffer.concat([this.buffer, chunk])],
    then the loop.  Returns the reported events and the new buffer. *)
Definition onData (buffer chunk : list byte) : list conn_event * list byte :=
  drain (buffer ++ chunk).

(** The socket events a [DebuggeeConnection] listens to. *)
Inductive socket_input :=
  | Data (chunk : list byte)
  | SockClose
  | SockError.

Definition on_socket (buffer : list byte) (i : socket_input)
    : list conn_event * list byte :=
  match i with
  | Data chunk => onData buffer chunk
  | SockClose => ([Closed], buffer)     (* socket.on('close', ...) *)
  | SockError => ([Closed], buffer)     (* socket.on('error', ...) *)
  end.

Fixpoint run (buffer : list byte) (inputs : list socket_input) : list conn_event :=
  match inputs with
  | [] => []
  | i :: rest => let '(evs, b) := on_socket buffer i in evs ++ run b rest
  end.

(** Feeding a list of chunks as successive ['data'] events. *)
Definition feed (buffer : list byte) (chunks : list (list byte)) : list conn_event :=
  run buffer (map Data chunks).

Definition bodies (evs : list conn_event) : list (list byte) :=
  flat_map (fun e => match e with Message b => [b] | Closed => [] end) evs.

(** [frames_of buf bs rest]: cutting complete frames off the front of [buf]
    one after another yields the bodies [bs] and leaves [rest]. *)
Fixpoint frames_of (buf : list byte) (bs : list (list byte)) (rest : list byte) : Prop :=
  match bs with
  | [] => buf = rest
  | b :: bs' => exists rest1, frame_step buf = Frame b rest1 /\ frames_of rest1 bs' rest
  end.

End Framing.

(* ===================================================================== *)
(** ** splitCommandLine *)
(* ===================================================================== *)

Module CommandLine.

Local Open Scope N_scope.

(** A JavaScript string as its UTF-16 code units. *)
Definition js_string := list N.

Definition quote : N := 34.

(** [/\s/.test(ch)] on one code unit. *)
Definition is_regex_space (c : N) : bool :=
  ((9 <=? c) && (c <=? 13)) || N.eqb c 32 || N.eqb c 160 || N.eqb c 5760 ||
  ((8192 <=? c) && (c <=? 8202)) || N.eqb c 8232 || N.eqb c 8233 ||
  N.eqb c 8239 || N.eqb c 8287 || N.eqb c 12288 || N.eqb c 65279.

(** [if (current.length > 0) args.push(current)] at the end of input. *)
Definition flush (current : js_string) : list js_string :=
  match current with
  | [] => []
  | _ => [current]
  end.

(** The [for] loop of [splitCommandLine], one character (or, for an escaped
    quote, two) per step; [inQuotes] and [current] are the loop's state. *)
Fixpoint split_loop (s : js_string) (inQuotes : bool) (current : js_string)
    : list js_string :=
  match s with
  | [] => flush current
  | ch :: rest =>
      if N.eqb ch quote then
        match rest with
        | next :: rest' =>
            if inQuotes && N.eqb next quote
            then split_loop rest' inQuotes (current ++ [quote])
            else split_loop rest (negb inQuotes) current
        | [] => split_loop rest (negb inQuotes) current
        end
      else if negb inQuotes && is_regex_space ch then
        match current with
        | [] => split_loop rest inQuotes []
        | _ => current :: split_loop rest inQuotes []
        end
      else split_loop rest inQuotes (current ++ [ch])
  end.

Definition splitCommandLine (commandLine : js_string) : list js_string :=
  split_loop commandLine false [].

(** *** The tokenization rule of the spec, stated over lexical items

    A command line is read as a sequence of items: white space, a plain
    character, a closed quoted span (whose body holds ordinary characters
    and the escape [""] for one literal quote) or, at the very end, a quoted
    span left open.  Tokens are the maximal runs of non-space items. *)

Inductive qchar :=
  | QChar (c : N)
  | QEscape.

Inductive item :=
  | ISpace (c : N)
  | IPlain (c : N)
  | IQuoted (body : list qchar)
  | IUnclosed (body : list qchar).

Definition render_q (b : list qchar) : js_string :=
  flat_map (fun q => match q with QChar c => [c] | QEscape => [quote; quote] end) b.

Definition value_q (b : list qchar) : js_string :=
  map (fun q => match q with QChar c => c | QEscape => quote end) b.

Definition render_item (it : item) : js_string :=
  match it with
  | ISpace c | IPlain c => [c]
  | IQuoted b => quote :: render_q b ++ [quote]
  | IUnclosed b => quote :: render_q b
  end.

Definition render (its : list item) : js_string := flat_map render_item its.

Definition item_value (it : item) : js_string :=
  match it with
  | ISpace c | IPlain c => [c]
  | IQuoted b | IUnclosed b => value_q b
  end.

Definition token_value (tok : list item) : js_string := flat_map item_value tok.

Definition wf_qchar (q : qchar) : Prop :=
  match q with QChar c => c <> quote | QEscape => True end.

Definition opens_quote (its : list item) : bool :=
  match its with
  | IQuoted _ :: _ | IUnclosed _ :: _ => true
  | _ => false
  end.

(** Well-formed item sequences: a closed span is never directly followed by
    another quote (that pair would be the escape [""]), and an open span
    only ends the line. *)
Fixpoint wf_items (its : list item) : Prop :=
  match its with
  | [] => True
  | ISpace c :: rest => is_regex_space c = true /\ wf_items rest
  | IPlain c :: rest => c <> quote /\ is_regex_space c = false /\ wf_items rest
  | IQuoted b :: rest => Forall wf_qchar b /\ opens_quote rest = false /\ wf_items rest
  | IUnclosed b :: rest => Forall wf_qchar b /\ rest = []
  end.

(** Tokens: the maximal runs of non-space items. *)
Fixpoint tokens_from (its : list item) (cur : list item) : list (list item) :=
  match its with
  | [] => match cur with [] => [] | _ => [cur] end
  | ISpace _ :: rest =>
      match cur with
      | [] => tokens_from rest []
      | _ => cur :: tokens_from rest []
      end
  | it :: rest => tokens_from rest (cur ++ [it])
  end.

Definition tokens (its : list item) : list (list item) := tokens_from its [].

Definition nonempty (s : js_string) : bool :=
  match s with [] => false | _ => true end.

(** Reading any code-unit string as items. *)
Fixpoint lex (s : js_string) : list item :=
  match s with
  | [] => []
  | c :: r =>
      if N.eqb c quote then lex_quoted r []
      else (if is_regex_space c then ISpace c else IPlain c) :: lex r
  end
with lex_quoted (s : js_string) (acc : list qchar) : list item :=
  match s with
  | [] => [IUnclosed (rev acc)]
  | c :: r =>
      if N.eqb c quote then
        match r with
        | c2 :: r' =>
            if N.eqb c2 quote then lex_quoted r' (QEscape :: acc)
            else IQuoted (rev acc) :: lex r
        | [] => [IQuoted (rev acc)]
        end
      else lex_quoted r (QChar c :: acc)
  end.

End CommandLine.

(* ===================================================================== *)
(** ** onDebuggeeJsonText: routing of debuggee messages *)
(* ===================================================================== *)

Module DebuggeeMessages.

Local Open Scope string_scope.

(** The values [JSON.parse] produces. *)
Inductive json :=
  | JNull
  | JBool (b : bool)
  | JNum (n : QArith_base.Q)
  | JStr (s : string)
  | JArr (items : list json)
  | JObj (fields : list (string * json)).

(** [msg?.key]: an own property of a parsed object (a later duplicate key
    overrides an earlier one, as [JSON.parse] assigns them in order);
    [undefined] for every other value, which has no such property. *)
Fixpoint assoc_last (fields : list (string * json)) (key : string) : option json :=
  match fields with
  | [] => None
  | (k, v) :: rest =>
      match assoc_last rest key with
      | Some w => Some w
      | None => if String.eqb k key then Some v else None
      end
  end.

Definition get (msg : json) (key : string) : option json :=
  match msg with
  | JObj fields => assoc_last fields key
  | _ => None
  end.


(** [Boolean(v)], the truth value of a parsed value ([undefined] is
    [None]). *)
Definition js_truthy (v : option json) : bool :=
  match v with
  | None | Some JNull => false
  | Some (JBool b) => b
  | Some (JNum q) => negb (Z.eqb (QArith_base.Qnum q) 0)
  | Some (JStr s) => negb (String.eqb s EmptyString)
  | Some (JArr _) | Some (JObj _) => true
  end.


Definition newline : string := String (Ascii.ascii_of_nat 10) EmptyString.




Definition as_string (v : option json) : string :=
  match v with
  | Some (JStr s) => s
  | _ => EmptyString
  end.

Section Routing.
(** [JSON.parse], [None] when it throws. *)
Variable json_parse : string -> option json.
(** [ToNumber(s) > 0] for a string [s] (the StringToNumber grammar: white
    space trimmed, decimal, hexadecimal, binary, octal or [Infinity];
    [NaN], which compares false, otherwise). *)
Variable string_gt_zero : string -> bool.
(** [String(items)] for an array: [items.join(',')]. *)
Variable array_join : list json -> string.





End Routing.

End DebuggeeMessages.

(* ===================================================================== *)
(** ** SisLuaDebugAdapterSession: the launch / connect / stop state machine *)
(* ===================================================================== *)

Module Session.

Import DebuggeeMessages.
Local Open Scope string_scope.

(** *** What the adapter reads from Node and the operating system

    [process.platform], [process.env], the [path] module, the file system
    checks and [String(v)] are the host's; a run of the adapter is one
    instance of this record. *)
Record host := mkHost {
  is_win32 : bool;                           (* process.platform === 'win32' *)
  path_isAbsolute : string -> bool;
  path_resolve : string -> string -> string;
  path_join : string -> string -> string;
  path_basename : string -> string;
  path_extname : string -> string;
  env_PATH : option string;                  (* process.env.PATH *)
  env_PATHEXT : option string;               (* process.env.PATHEXT *)
  fs_existsSync : string -> bool;
  fs_isDirectory : string -> bool;           (* fs.statSync(p).isDirectory(); false when it throws *)
  win32PeSubsystem : string -> option Z;     (* reads the PE header; undefined off win32 *)
  js_String : json -> string                 (* String(v) *)
}.

(** [path.sep] and [path.delimiter]. *)
Definition path_sep (H : host) : string := if is_win32 H then "\" else "/".

Definition path_delimiter (H : host) : ascii :=
  if is_win32 H then Ascii.ascii_of_nat 59 else Ascii.ascii_of_nat 58.

(** *** String helpers (a character of a Rocq string is one code unit) *)

Definition codes (s : string) : list N :=
  map (fun a => N.of_nat (Ascii.nat_of_ascii a)) (list_ascii_of_string s).

Definition of_codes (l : list N) : string :=
  string_of_list_ascii (map Ascii.ascii_of_N l).

Fixpoint drop_space (l : list N) : list N :=
  match l with
  | c :: rest => if CommandLine.is_regex_space c then drop_space rest else l
  | [] => []
  end.

(** [String.prototype.trim]: JavaScript's white space and line terminators
    are the characters of [\s]. *)
Definition trim (s : string) : string :=
  of_codes (rev (drop_space (rev (drop_space (codes s))))).

(** [String.prototype.toLowerCase] on 8-bit code units. *)
Definition lower_code (c : nat) : nat :=
  if (Nat.leb 65 c && Nat.leb c 90) || (Nat.leb 192 c && Nat.leb c 222 && negb (Nat.eqb c 215))
  then c + 32 else c.

Definition to_lower (s : string) : string :=
  string_of_list_ascii
    (map (fun a => Ascii.ascii_of_nat (lower_code (Ascii.nat_of_ascii a)))
         (list_ascii_of_string s)).

(** [String.prototype.split(sep)] for a one-character separator. *)
Fixpoint split_on (sep : ascii) (s : string) : list string :=
  match s with
  | EmptyString => [EmptyString]
  | String c rest =>
      let parts := split_on sep rest in
      if Ascii.eqb c sep then EmptyString :: parts
      else match parts with
           | p :: ps => String c p :: ps
           | [] => [String c EmptyString]
           end
  end.

(** [.filter((x) => x.length > 0)]. *)
Definition nonempty_strings (l : list string) : list string :=
  filter (fun x => negb (String.eqb x EmptyString)) l.

(** Decimal rendering of a number, as template literals and
    [JSON.stringify] print a non-negative integer. *)
Fixpoint n_digits (fuel : nat) (n : N) (acc : string) : string :=
  match fuel with
  | O => acc
  | S f =>
      let acc' := String (Ascii.ascii_of_N (48 + N.modulo n 10)%N) acc in
      if (n <? 10)%N then acc' else n_digits f (N.div n 10) acc'
  end.

Definition N_to_decimal (n : N) : string := n_digits (S (N.size_nat n)) n EmptyString.

Definition Z_to_decimal (z : Z) : string :=
  if (z <? 0)%Z then "-" ++ N_to_decimal (Z.to_N (- z)) else N_to_decimal (Z.to_N z).

(** *** JSON text and framing of what the adapter writes to the debuggee *)

Definition char (n : nat) : string := String (Ascii.ascii_of_nat n) EmptyString.

Definition hex_digit (n : nat) : string :=
  if Nat.ltb n 10 then char (48 + n) else char (87 + n).

(** [JSON.stringify] on a string: the escapes of QuoteJSONString. *)
Definition json_escape (c : nat) : string :=
  if Nat.eqb c 8 then char 92 ++ "b"
  else if Nat.eqb c 9 then char 92 ++ "t"
  else if Nat.eqb c 10 then char 92 ++ "n"
  else if Nat.eqb c 12 then char 92 ++ "f"
  else if Nat.eqb c 13 then char 92 ++ "r"
  else if Nat.eqb c 34 then char 92 ++ char 34
  else if Nat.eqb c 92 then char 92 ++ char 92
  else if Nat.ltb c 32 then char 92 ++ "u00" ++ hex_digit (c / 16) ++ hex_digit (c mod 16)
  else char c.

Fixpoint json_quote_body (s : string) : string :=
  match s with
  | EmptyString => EmptyString
  | String a rest => json_escape (Ascii.nat_of_ascii a) ++ json_quote_body rest
  end.

Definition json_quote (s : string) : string := char 34 ++ json_quote_body s ++ char 34.

(** [JSON.stringify] of an object literal whose properties, in order, hold
    the given (already stringified) values. *)
Definition json_object (fields : list (string * string)) : string :=
  "{" ++ String.concat "," (map (fun '(k, v) => json_quote k ++ ":" ++ v) fields) ++ "}".

Definition byte_of (n : N) : byte :=
  match Byte.of_N n with Some b => b | None => x00 end.

(** [Buffer.from(s, 'utf8')] for code units below 256. *)
Definition utf8_char (c : N) : list byte :=
  if (c <? 128)%N then [byte_of c]
  else [byte_of (192 + N.div c 64)%N; byte_of (128 + N.modulo c 64)%N].

Definition utf8 (s : string) : list byte := flat_map utf8_char (codes s).

(** The welcome message: [JSON.stringify({command: 'welcome', sourceBasePath,
    directorySeperator: path.sep})]. *)
Definition welcome_message (sourceBasePath sep : string) : string :=
  json_object [("command", json_quote "welcome");
               ("sourceBasePath", json_quote sourceBasePath);
               ("directorySeperator", json_quote sep)].

(** *** Launch configuration values (the request's [args] object) *)

(** [isNonEmptyString(v)]. *)
Definition isNonEmptyString (v : option json) : bool :=
  match v with
  | Some (JStr s) => negb (String.eqb (trim s) EmptyString)
  | _ => false
  end.

Fixpoint all_strings (items : list json) : option (list string) :=
  match items with
  | [] => Some []
  | JStr s :: rest => option_map (cons s) (all_strings rest)
  | _ :: _ => None
  end.

(** [asStringArray(v)]. *)
Definition asStringArray (v : option json) : option (list string) :=
  match v with
  | Some (JArr items) => all_strings items
  | _ => None
  end.

Definition splitCommandLineS (s : string) : list string :=
  map of_codes (CommandLine.splitCommandLine (codes s)).

Definition parseInt10 (s : string) : Framing.js_int :=
  Framing.parse_int10 (map Ascii.nat_of_ascii (list_ascii_of_string s)).

(** *** Session state *)

Inductive kind := KLaunch | KAttach.

Inductive terminal_kind := Integrated | External.

(** A spawned [ChildProcess]: its handle and its [pid] ([undefined] when
    the spawn failed). *)
Record child := mkChild { child_id : nat; child_pid : option Z }.

(** A DAP response object.  Responses are mutable objects that the session
    keeps a reference to ([pendingStartResponse]), so they live in a store
    indexed by the request's sequence number. *)
Record response := mkResponse {
  request_seq : nat;
  command : string;
  success : bool;
  message : option string;
  error_body : option (Z * string)      (* body.error = {id, format} *)
}.

(** [new Response(request)]. *)
Definition new_response (seq : nat) (cmd : string) : response :=
  mkResponse seq cmd true None None.

Record session := mkSession {
  debuggee : option nat;                      (* the connection's socket *)
  listener : option nat;                      (* a net.Server *)
  pendingStartResponse : option nat;          (* reference into [responses] *)
  pendingStartRequest : option nat;
  sessionToken : nat;
  stopping : bool;
  activeKind : option kind;
  customRequestSeq : nat;
  workingDirectory : string;
  sourceBasePath : string;
  listenHost : string;
  listenPort : Z;
  launchedChild : option child;
  launchedExecutableFullPath : option string;
  launchedTerminalKind : option terminal_kind;
  launchedProcessId : option Z;
  launchedShellProcessId : option Z;
  clientSupportsRunInTerminalRequest : bool;
  responses : nat -> response;
  sequence : nat;                             (* ProtocolServer's [_sequence] *)
  response_seqs : nat -> nat                  (* the [seq] field of [responses n] *)
}.

Definition set_debuggee (v : option nat) (s : session) : session :=
  {| debuggee := v; listener := s.(listener); pendingStartResponse := s.(pendingStartResponse); pendingStartRequest := s.(pendingStartRequest); sessionToken := s.(sessionToken); stopping := s.(stopping); activeKind := s.(activeKind); customRequestSeq := s.(customRequestSeq); workingDirectory := s.(workingDirectory); sourceBasePath := s.(sourceBasePath); listenHost := s.(listenHost); listenPort := s.(listenPort); launchedChild := s.(launchedChild); launchedExecutableFullPath := s.(launchedExecutableFullPath); launchedTerminalKind := s.(launchedTerminalKind); launchedProcessId := s.(launchedProcessId); launchedShellProcessId := s.(launchedShellProcessId); clientSupportsRunInTerminalRequest := s.(clientSupportsRunInTerminalRequest); responses := s.(responses); sequence := s.(sequence); response_seqs := s.(response_seqs) |}.

Definition set_listener (v : option nat) (s : session) : session :=
  {| debuggee := s.(debuggee); listener := v; pendingStartResponse := s.(pendingStartResponse); pendingStartRequest := s.(pendingStartRequest); sessionToken := s.(sessionToken); stopping := s.(stopping); activeKind := s.(activeKind); customRequestSeq := s.(customRequestSeq); workingDirectory := s.(workingDirectory); sourceBasePath := s.(sourceBasePath); listenHost := s.(listenHost); listenPort := s.(listenPort); launchedChild := s.(launchedChild); launchedExecutableFullPath := s.(launchedExecutableFullPath); launchedTerminalKind := s.(launchedTerminalKind); launchedProcessId := s.(launchedProcessId); launchedShellProcessId := s.(launchedShellProcessId); clientSupportsRunInTerminalRequest := s.(clientSupportsRunInTerminalRequest); responses := s.(responses); sequence := s.(sequence); response_seqs := s.(response_seqs) |}.

Definition set_pendingStartResponse (v : option nat) (s : session) : session :=
  {| debuggee := s.(debuggee); listener := s.(listener); pendingStartResponse := v; pendingStartRequest := s.(pendingStartRequest); sessionToken := s.(sessionToken); stopping := s.(stopping); activeKind := s.(activeKind); customRequestSeq := s.(customRequestSeq); workingDirectory := s.(workingDirectory); sourceBasePath := s.(sourceBasePath); listenHost := s.(listenHost); listenPort := s.(listenPort); launchedChild := s.(launchedChild); launchedExecutableFullPath := s.(launchedExecutableFullPath); launchedTerminalKind := s.(launchedTerminalKind); launchedProcessId := s.(launchedProcessId); launchedShellProcessId := s.(launchedShellProcessId); clientSupportsRunInTerminalRequest := s.(clientSupportsRunInTerminalRequest); responses := s.(responses); sequence := s.(sequence); response_seqs := s.(response_seqs) |}.

Definition set_pendingStartRequest (v : option nat) (s : session) : session :=
  {| debuggee := s.(debuggee); listener := s.(listener); pendingStartResponse := s.(pendingStartResponse); pendingStartRequest := v; sessionToken := s.(sessionToken); stopping := s.(stopping); activeKind := s.(activeKind); customRequestSeq := s.(customRequestSeq); workingDirectory := s.(workingDirectory); sourceBasePath := s.(sourceBasePath); listenHost := s.(listenHost); listenPort := s.(listenPort); launchedChild := s.(launchedChild); launchedExecutableFullPath := s.(launchedExecutableFullPath); launchedTerminalKind := s.(launchedTerminalKind); launchedProcessId := s.(launchedProcessId); launchedShellProcessId := s.(launchedShellProcessId); clientSupportsRunInTerminalRequest := s.(clientSupportsRunInTerminalRequest); responses := s.(responses); sequence := s.(sequence); response_seqs := s.(response_seqs) |}.

Definition set_sessionToken (v : nat) (s : session) : session :=
  {| debuggee := s.(debuggee); listener := s.(listener); pendingStartResponse := s.(pendingStartResponse); pendingStartRequest := s.(pendingStartRequest); sessionToken := v; stopping := s.(stopping); activeKind := s.(activeKind); customRequestSeq := s.(customRequestSeq); workingDirectory := s.(workingDirectory); sourceBasePath := s.(sourceBasePath); listenHost := s.(listenHost); listenPort := s.(listenPort); launchedChild := s.(launchedChild); launchedExecutableFullPath := s.(launchedExecutableFullPath); launchedTerminalKind := s.(launchedTerminalKind); launchedProcessId := s.(launchedProcessId); launchedShellProcessId := s.(launchedShellProcessId); clientSupportsRunInTerminalRequest := s.(clientSupportsRunInTerminalRequest); responses := s.(responses); sequence := s.(sequence); response_seqs := s.(response_seqs) |}.

Definition set_stopping (v : bool) (s : session) : session :=
  {| debuggee := s.(debuggee); listener := s.(listener); pendingStartResponse := s.(pendingStartResponse); pendingStartRequest := s.(pendingStartRequest); sessionToken := s.(sessionToken); stopping := v; activeKind := s.(activeKind); customRequestSeq := s.(customRequestSeq); workingDirectory := s.(workingDirectory); sourceBasePath := s.(sourceBasePath); listenHost := s.(listenHost); listenPort := s.(listenPort); launchedChild := s.(launchedChild); launchedExecutableFullPath := s.(launchedExecutableFullPath); launchedTerminalKind := s.(launchedTerminalKind); launchedProcessId := s.(launchedProcessId); launchedShellProcessId := s.(launchedShellProcessId); clientSupportsRunInTerminalRequest := s.(clientSupportsRunInTerminalRequest); responses := s.(responses); sequence := s.(sequence); response_seqs := s.(response_seqs) |}.

Definition set_activeKind (v : option kind) (s : session) : session :=
  {| debuggee := s.(debuggee); listener := s.(listener); pendingStartResponse := s.(pendingStartResponse); pendingStartRequest := s.(pendingStartRequest); sessionToken := s.(sessionToken); stopping := s.(stopping); activeKind := v; customRequestSeq := s.(customRequestSeq); workingDirectory := s.(workingDirectory); sourceBasePath := s.(sourceBasePath); listenHost := s.(listenHost); listenPort := s.(listenPort); launchedChild := s.(launchedChild); launchedExecutableFullPath := s.(launchedExecutableFullPath); launchedTerminalKind := s.(launchedTerminalKind); launchedProcessId := s.(launchedProcessId); launchedShellProcessId := s.(launchedShellProcessId); clientSupportsRunInTerminalRequest := s.(clientSupportsRunInTerminalRequest); responses := s.(responses); sequence := s.(sequence); response_seqs := s.(response_seqs) |}.

Definition set_customRequestSeq (v : nat) (s : session) : session :=
  {| debuggee := s.(debuggee); listener := s.(listener); pendingStartResponse := s.(pendingStartResponse); pendingStartRequest := s.(pendingStartRequest); sessionToken := s.(sessionToken); stopping := s.(stopping); activeKind := s.(activeKind); customRequestSeq := v; workingDirectory := s.(workingDirectory); sourceBasePath := s.(sourceBasePath); listenHost := s.(listenHost); listenPort := s.(listenPort); launchedChild := s.(launchedChild); launchedExecutableFullPath := s.(launchedExecutableFullPath); launchedTerminalKind := s.(launchedTerminalKind); launchedProcessId := s.(launchedProcessId); launchedShellProcessId := s.(launchedShellProcessId); clientSupportsRunInTerminalRequest := s.(clientSupportsRunInTerminalRequest); responses := s.(responses); sequence := s.(sequence); response_seqs := s.(response_seqs) |}.

Definition set_workingDirectory (v : string) (s : session) : session :=
  {| debuggee := s.(debuggee); listener := s.(listener); pendingStartResponse := s.(pendingStartResponse); pendingStartRequest := s.(pendingStartRequest); sessionToken := s.(sessionToken); stopping := s.(stopping); activeKind := s.(activeKind); customRequestSeq := s.(customRequestSeq); workingDirectory := v; sourceBasePath := s.(sourceBasePath); listenHost := s.(listenHost); listenPort := s.(listenPort); launchedChild := s.(launchedChild); launchedExecutableFullPath := s.(launchedExecutableFullPath); launchedTerminalKind := s.(launchedTerminalKind); launchedProcessId := s.(launchedProcessId); launchedShellProcessId := s.(launchedShellProcessId); clientSupportsRunInTerminalRequest := s.(clientSupportsRunInTerminalRequest); responses := s.(responses); sequence := s.(sequence); response_seqs := s.(response_seqs) |}.

Definition set_sourceBasePath (v : string) (s : session) : session :=
  {| debuggee := s.(debuggee); listener := s.(listener); pendingStartResponse := s.(pendingStartResponse); pendingStartRequest := s.(pendingStartRequest); sessionToken := s.(sessionToken); stopping := s.(stopping); activeKind := s.(activeKind); customRequestSeq := s.(customRequestSeq); workingDirectory := s.(workingDirectory); sourceBasePath := v; listenHost := s.(listenHost); listenPort := s.(listenPort); launchedChild := s.(launchedChild); launchedExecutableFullPath := s.(launchedExecutableFullPath); launchedTerminalKind := s.(launchedTerminalKind); launchedProcessId := s.(launchedProcessId); launchedShellProcessId := s.(launchedShellProcessId); clientSupportsRunInTerminalRequest := s.(clientSupportsRunInTerminalRequest); responses := s.(responses); sequence := s.(sequence); response_seqs := s.(response_seqs) |}.

Definition set_listenHost (v : string) (s : session) : session :=
  {| debuggee := s.(debuggee); listener := s.(listener); pendingStartResponse := s.(pendingStartResponse); pendingStartRequest := s.(pendingStartRequest); sessionToken := s.(sessionToken); stopping := s.(stopping); activeKind := s.(activeKind); customRequestSeq := s.(customRequestSeq); workingDirectory := s.(workingDirectory); sourceBasePath := s.(sourceBasePath); listenHost := v; listenPort := s.(listenPort); launchedChild := s.(launchedChild); launchedExecutableFullPath := s.(launchedExecutableFullPath); launchedTerminalKind := s.(launchedTerminalKind); launchedProcessId := s.(launchedProcessId); launchedShellProcessId := s.(launchedShellProcessId); clientSupportsRunInTerminalRequest := s.(clientSupportsRunInTerminalRequest); responses := s.(responses); sequence := s.(sequence); response_seqs := s.(response_seqs) |}.

Definition set_listenPort (v : Z) (s : session) : session :=
  {| debuggee := s.(debuggee); listener := s.(listener); pendingStartResponse := s.(pendingStartResponse); pendingStartRequest := s.(pendingStartRequest); sessionToken := s.(sessionToken); stopping := s.(stopping); activeKind := s.(activeKind); customRequestSeq := s.(customRequestSeq); workingDirectory := s.(workingDirectory); sourceBasePath := s.(sourceBasePath); listenHost := s.(listenHost); listenPort := v; launchedChild := s.(launchedChild); launchedExecutableFullPath := s.(launchedExecutableFullPath); launchedTerminalKind := s.(launchedTerminalKind); launchedProcessId := s.(launchedProcessId); launchedShellProcessId := s.(launchedShellProcessId); clientSupportsRunInTerminalRequest := s.(clientSupportsRunInTerminalRequest); responses := s.(responses); sequence := s.(sequence); response_seqs := s.(response_seqs) |}.

Definition set_launchedChild (v : option child) (s : session) : session :=
  {| debuggee := s.(debuggee); listener := s.(listener); pendingStartResponse := s.(pendingStartResponse); pendingStartRequest := s.(pendingStartRequest); sessionToken := s.(sessionToken); stopping := s.(stopping); activeKind := s.(activeKind); customRequestSeq := s.(customRequestSeq); workingDirectory := s.(workingDirectory); sourceBasePath := s.(sourceBasePath); listenHost := s.(listenHost); listenPort := s.(listenPort); launchedChild := v; launchedExecutableFullPath := s.(launchedExecutableFullPath); launchedTerminalKind := s.(launchedTerminalKind); launchedProcessId := s.(launchedProcessId); launchedShellProcessId := s.(launchedShellProcessId); clientSupportsRunInTerminalRequest := s.(clientSupportsRunInTerminalRequest); responses := s.(responses); sequence := s.(sequence); response_seqs := s.(response_seqs) |}.

Definition set_launchedExecutableFullPath (v : option string) (s : session) : session :=
  {| debuggee := s.(debuggee); listener := s.(listener); pendingStartResponse := s.(pendingStartResponse); pendingStartRequest := s.(pendingStartRequest); sessionToken := s.(sessionToken); stopping := s.(stopping); activeKind := s.(activeKind); customRequestSeq := s.(customRequestSeq); workingDirectory := s.(workingDirectory); sourceBasePath := s.(sourceBasePath); listenHost := s.(listenHost); listenPort := s.(listenPort); launchedChild := s.(launchedChild); launchedExecutableFullPath := v; launchedTerminalKind := s.(launchedTerminalKind); launchedProcessId := s.(launchedProcessId); launchedShellProcessId := s.(launchedShellProcessId); clientSupportsRunInTerminalRequest := s.(clientSupportsRunInTerminalRequest); responses := s.(responses); sequence := s.(sequence); response_seqs := s.(response_seqs) |}.

Definition set_launchedTerminalKind (v : option terminal_kind) (s : session) : session :=
  {| debuggee := s.(debuggee); listener := s.(listener); pendingStartResponse := s.(pendingStartResponse); pendingStartRequest := s.(pendingStartRequest); sessionToken := s.(sessionToken); stopping := s.(stopping); activeKind := s.(activeKind); customRequestSeq := s.(customRequestSeq); workingDirectory := s.(workingDirectory); sourceBasePath := s.(sourceBasePath); listenHost := s.(listenHost); listenPort := s.(listenPort); launchedChild := s.(launchedChild); launchedExecutableFullPath := s.(launchedExecutableFullPath); launchedTerminalKind := v; launchedProcessId := s.(launchedProcessId); launchedShellProcessId := s.(launchedShellProcessId); clientSupportsRunInTerminalRequest := s.(clientSupportsRunInTerminalRequest); responses := s.(responses); sequence := s.(sequence); response_seqs := s.(response_seqs) |}.

Definition set_launchedProcessId (v : option Z) (s : session) : session :=
  {| debuggee := s.(debuggee); listener := s.(listener); pendingStartResponse := s.(pendingStartResponse); pendingStartRequest := s.(pendingStartRequest); sessionToken := s.(sessionToken); stopping := s.(stopping); activeKind := s.(activeKind); customRequestSeq := s.(customRequestSeq); workingDirectory := s.(workingDirectory); sourceBasePath := s.(sourceBasePath); listenHost := s.(listenHost); listenPort := s.(listenPort); launchedChild := s.(launchedChild); launchedExecutableFullPath := s.(launchedExecutableFullPath); launchedTerminalKind := s.(launchedTerminalKind); launchedProcessId := v; launchedShellProcessId := s.(launchedShellProcessId); clientSupportsRunInTerminalRequest := s.(clientSupportsRunInTerminalRequest); responses := s.(responses); sequence := s.(sequence); response_seqs := s.(response_seqs) |}.

Definition set_launchedShellProcessId (v : option Z) (s : session) : session :=
  {| debuggee := s.(debuggee); listener := s.(listener); pendingStartResponse := s.(pendingStartResponse); pendingStartRequest := s.(pendingStartRequest); sessionToken := s.(sessionToken); stopping := s.(stopping); activeKind := s.(activeKind); customRequestSeq := s.(customRequestSeq); workingDirectory := s.(workingDirectory); sourceBasePath := s.(sourceBasePath); listenHost := s.(listenHost); listenPort := s.(listenPort); launchedChild := s.(launchedChild); launchedExecutableFullPath := s.(launchedExecutableFullPath); launchedTerminalKind := s.(launchedTerminalKind); launchedProcessId := s.(launchedProcessId); launchedShellProcessId := v; clientSupportsRunInTerminalRequest := s.(clientSupportsRunInTerminalRequest); responses := s.(responses); sequence := s.(sequence); response_seqs := s.(response_seqs) |}.

Definition set_clientSupportsRunInTerminalRequest (v : bool) (s : session) : session :=
  {| debuggee := s.(debuggee); listener := s.(listener); pendingStartResponse := s.(pendingStartResponse); pendingStartRequest := s.(pendingStartRequest); sessionToken := s.(sessionToken); stopping := s.(stopping); activeKind := s.(activeKind); customRequestSeq := s.(customRequestSeq); workingDirectory := s.(workingDirectory); sourceBasePath := s.(sourceBasePath); listenHost := s.(listenHost); listenPort := s.(listenPort); launchedChild := s.(launchedChild); launchedExecutableFullPath := s.(launchedExecutableFullPath); launchedTerminalKind := s.(launchedTerminalKind); launchedProcessId := s.(launchedProcessId); launchedShellProcessId := s.(launchedShellProcessId); clientSupportsRunInTerminalRequest := v; responses := s.(responses); sequence := s.(sequence); response_seqs := s.(response_seqs) |}.

Definition set_responses (v : (nat -> response)) (s : session) : session :=
  {| debuggee := s.(debuggee); listener := s.(listener); pendingStartResponse := s.(pendingStartResponse); pendingStartRequest := s.(pendingStartRequest); sessionToken := s.(sessionToken); stopping := s.(stopping); activeKind := s.(activeKind); customRequestSeq := s.(customRequestSeq); workingDirectory := s.(workingDirectory); sourceBasePath := s.(sourceBasePath); listenHost := s.(listenHost); listenPort := s.(listenPort); launchedChild := s.(launchedChild); launchedExecutableFullPath := s.(launchedExecutableFullPath); launchedTerminalKind := s.(launchedTerminalKind); launchedProcessId := s.(launchedProcessId); launchedShellProcessId := s.(launchedShellProcessId); clientSupportsRunInTerminalRequest := s.(clientSupportsRunInTerminalRequest); responses := v; sequence := s.(sequence); response_seqs := s.(response_seqs) |}.

Definition set_sequence (v : nat) (s : session) : session :=
  {| debuggee := s.(debuggee); listener := s.(listener); pendingStartResponse := s.(pendingStartResponse); pendingStartRequest := s.(pendingStartRequest); sessionToken := s.(sessionToken); stopping := s.(stopping); activeKind := s.(activeKind); customRequestSeq := s.(customRequestSeq); workingDirectory := s.(workingDirectory); sourceBasePath := s.(sourceBasePath); listenHost := s.(listenHost); listenPort := s.(listenPort); launchedChild := s.(launchedChild); launchedExecutableFullPath := s.(launchedExecutableFullPath); launchedTerminalKind := s.(launchedTerminalKind); launchedProcessId := s.(launchedProcessId); launchedShellProcessId := s.(launchedShellProcessId); clientSupportsRunInTerminalRequest := s.(clientSupportsRunInTerminalRequest); responses := s.(responses); sequence := v; response_seqs := s.(response_seqs) |}.

Definition set_response_seqs (v : (nat -> nat)) (s : session) : session :=
  {| debuggee := s.(debuggee); listener := s.(listener); pendingStartResponse := s.(pendingStartResponse); pendingStartRequest := s.(pendingStartRequest); sessionToken := s.(sessionToken); stopping := s.(stopping); activeKind := s.(activeKind); customRequestSeq := s.(customRequestSeq); workingDirectory := s.(workingDirectory); sourceBasePath := s.(sourceBasePath); listenHost := s.(listenHost); listenPort := s.(listenPort); launchedChild := s.(launchedChild); launchedExecutableFullPath := s.(launchedExecutableFullPath); launchedTerminalKind := s.(launchedTerminalKind); launchedProcessId := s.(launchedProcessId); launchedShellProcessId := s.(launchedShellProcessId); clientSupportsRunInTerminalRequest := s.(clientSupportsRunInTerminalRequest); responses := s.(responses); sequence := s.(sequence); response_seqs := v |}.

Definition upd {A} (store : nat -> A) (k : nat) (r : A) : nat -> A :=
  fun n => if Nat.eqb n k then r else store n.

(** *** What the adapter does to the outside world, in order *)

Inductive ide_event :=
  | Terminated
  | Initialized
  | Output (text category : string).

Inductive bind_outcome :=
  | Listening                      (* the server's 'listening' event *)
  | ListenError (reason : string). (* the server's 'error' event *)

(** Asynchronous continuations the session leaves behind. *)
Inductive task :=
  | AwaitListener (startToken : nat) (k : kind) (rid : nat) (cfg : json) (server : nat)
      (* the rest of [startDebuggingSession] after [await this.openListener(..)] *)
  | RunInTerminalCallback
      (* the callback given to [this.runInTerminalRequest(..)] *)
  | StopGraceTimer (stopToken : nat)
      (* [setTimeout(.., 250)] of [stopDebuggingSession] *)
  | StopTeardown.
      (* [setImmediate(..)] of [stopDebuggingSession] *)

Inductive effect :=
  | SendResponse (r : response)            (* the object as it is when sent *)
  | SendEvent (e : ide_event)
  | ListenerListen (server : nat) (port : Z) (host : string)
  | ListenerClose (server : nat)
  | SocketDestroy (sock : nat)
  | SocketSetNoDelay (sock : nat)
  | SocketWrite (sock : nat) (bytes : list byte)
  | KillProcessTree (pid : Z)
  | KillImageTree (image : string)
  | KillProcessDescendants (rootPid : Z)
  | ChildKill (c : nat)
  | SpawnChild (c : nat) (exe : string) (args : list string) (cwd : string)
  | RunInTerminalRequest (k : terminal_kind) (cwd : string) (args : list string)
  | ScheduleTask (t : task)
  | Shutdown.

(** *** The session monad: state passing with an output of effects *)

Definition M (A : Type) : Type := session -> A * session * list effect.

Definition ret {A} (a : A) : M A := fun s => (a, s, []).

Definition bind {A B} (m : M A) (k : A -> M B) : M B :=
  fun s => let '(a, s1, e1) := m s in
           let '(b, s2, e2) := k a s1 in (b, s2, List.app e1 e2).

Notation "x <- m ;; k" := (bind m (fun x => k))
  (at level 61, m at next level, right associativity).
Notation "m ;; k" := (bind m (fun _ => k)) (at level 61, right associativity).

Definition get_state : M session := fun s => (s, s, []).

Definition modify (f : session -> session) : M unit := fun s => (tt, f s, []).

Definition emit (e : effect) : M unit := fun s => (tt, s, [e]).

Fixpoint for_each {A} (l : list A) (f : A -> M unit) : M unit :=
  match l with
  | [] => ret tt
  | x :: rest => f x ;; for_each rest f
  end.

Section Adapter.

Variable H : host.

(** *** DebugSession plumbing *)

(** ProtocolServer's [_send]: [message.seq = this._sequence++]. *)
Definition mark_sent (rid : nat) (s : session) : session :=
  set_sequence (S s.(sequence)) (set_response_seqs (upd s.(response_seqs) rid s.(sequence)) s).

(** ProtocolServer's [sendResponse(response)]: a response whose [seq] is
    already positive has been sent before; the library only logs it
    ([console.error]) and sends nothing.  Otherwise [_send] numbers it and
    writes it. *)
Definition sendResponse (rid : nat) : M unit :=
  s <- get_state ;;
  if Nat.ltb 0 (s.(response_seqs) rid) then ret tt
  else modify (mark_sent rid) ;; emit (SendResponse (s.(responses) rid)).

(** [_send] on an event or a request: it takes the next sequence number. *)
Definition next_sequence : M unit := modify (fun s => set_sequence (S s.(sequence)) s).

(** [sendEvent(event)]. *)
Definition sendEvent (e : ide_event) : M unit := next_sequence ;; emit (SendEvent e).

(** [sendErrorResponse(response, code, format, variables)]: marks the same
    response object failed, stores the error message (its format string;
    the substitution of [variables] is the library's) and sends it. *)
Definition mark_error (code : Z) (format : string) (r : response) : response :=
  mkResponse r.(request_seq) r.(command) false (Some format) (Some (code, format)).

Definition sendErrorResponse (rid : nat) (code : Z) (format : string) : M unit :=
  modify (fun s => set_responses (upd s.(responses) rid (mark_error code format (s.(responses) rid))) s) ;;
  sendResponse rid.

(** [r.success = true; delete r.message]. *)
Definition mark_success (r : response) : response :=
  mkResponse r.(request_seq) r.(command) true None r.(error_body).

Definition shutdown : M unit := emit Shutdown.

(** *** Helpers of the module *)

Definition killProcessTreeBestEffort (pid : Z) : M unit :=
  if (pid <=? 0)%Z then ret tt else emit (KillProcessTree pid).

Definition killImageTreeBestEffort (imageName : string) : M unit :=
  if negb (is_win32 H) then ret tt
  else if negb (isNonEmptyString (Some (JStr imageName))) then ret tt
  else emit (KillImageTree imageName).

Definition killProcessDescendantsBestEffort (rootPid : Z) : M unit :=
  if negb (is_win32 H) then ret tt
  else if (rootPid <=? 0)%Z then ret tt
  else emit (KillProcessDescendants rootPid).

Definition resolveExecutable (runtimeExecutable cwd : string) : option string :=
  let candidates0 :=
    if path_isAbsolute H runtimeExecutable then [runtimeExecutable]
    else [path_resolve H cwd runtimeExecutable; runtimeExecutable] in
  let pathVar := match env_PATH H with Some p => p | None => EmptyString end in
  let pathExtVar := match env_PATHEXT H with Some p => p | None => ".EXE;.CMD;.BAT;.COM" end in
  let pathExts :=
    if is_win32 H then nonempty_strings (split_on (Ascii.ascii_of_nat 59) pathExtVar)
    else [EmptyString] in
  let pathDirs := nonempty_strings (split_on (path_delimiter H) pathVar) in
  let candidates :=
    List.app candidates0
      (flat_map (fun dir => map (fun ext => path_join H dir (runtimeExecutable ++ ext)) pathExts)
                pathDirs) in
  find (fs_existsSync H) candidates.

Definition shouldWrapRunInTerminalWithCmd (exePath : string) : bool :=
  if negb (is_win32 H) then false
  else if negb (String.eqb (to_lower (path_extname H exePath)) ".exe") then false
  else match win32PeSubsystem H exePath with
       | Some 2%Z => true
       | Some 3%Z => false
       | _ =>
           let base := to_lower (path_basename H exePath) in
           String.eqb base "sis.exe" || String.eqb base "sis64.exe"
       end.

(** *** DebuggeeConnection's writers *)

Definition sendRawJsonText (sock : nat) (jsonText : string) : M unit :=
  let bodyBytes := utf8 jsonText in
  let headerBytes := utf8 ("#" ++ N_to_decimal (N.of_nat (List.length bodyBytes)) ++ newline) in
  emit (SocketWrite sock headerBytes) ;;
  emit (SocketWrite sock bodyBytes).

(** [sendJsonMessage(msg)], given [JSON.stringify(msg)]. *)
Definition sendJsonMessage (sock : nat) (msgText : string) : M unit :=
  sendRawJsonText sock msgText.

(** *** Private methods of the session *)

Definition closeDebuggee : M unit :=
  s <- get_state ;;
  match s.(debuggee) with
  | None => ret tt
  | Some c => emit (SocketDestroy c) ;; modify (set_debuggee None)
  end.

Definition closeListener : M unit :=
  s <- get_state ;;
  match s.(listener) with
  | None => ret tt
  | Some l => emit (ListenerClose l) ;; modify (set_listener None)
  end.

Definition opt_list (o : option Z) : list Z :=
  match o with Some x => [x] | None => [] end.

(** Iteration order of [new Set<number>()] filled with [pids]. *)
Fixpoint set_add_all (seen pids : list Z) : list Z :=
  match pids with
  | [] => seen
  | p :: rest => set_add_all (if existsb (Z.eqb p) seen then seen else List.app seen [p]) rest
  end.

Definition is_external (k : option terminal_kind) : bool :=
  match k with Some External => true | _ => false end.

Definition killLaunchedProcesses : M unit :=
  s <- get_state ;;
  let childPids :=
    match s.(launchedChild) with
    | Some c => opt_list c.(child_pid)
    | None => []
    end in
  (match s.(launchedChild) with
   | Some c => emit (ChildKill c.(child_id)) ;; modify (set_launchedChild None)
   | None => ret tt
   end) ;;
  let terminalPids :=
    if is_external s.(launchedTerminalKind)
    then List.app (opt_list s.(launchedProcessId)) (opt_list s.(launchedShellProcessId))
    else [] in
  for_each (set_add_all [] (List.app childPids terminalPids)) killProcessTreeBestEffort ;;
  modify (set_launchedProcessId None) ;;
  modify (set_launchedShellProcessId None) ;;
  modify (set_launchedTerminalKind None) ;;
  modify (set_launchedExecutableFullPath None).

Definition requestDebuggeeExitBestEffort : M unit :=
  s <- get_state ;;
  match s.(debuggee) with
  | None => ret tt
  | Some c =>
      let seq := s.(customRequestSeq) in
      modify (set_customRequestSeq (S seq)) ;;
      sendRawJsonText c
        (json_object [("seq", N_to_decimal (N.of_nat seq));
                      ("type", json_quote "request");
                      ("command", json_quote "sis_exit");
                      ("arguments", json_object [])])
  end.

Definition isSome {A} (o : option A) : bool :=
  match o with Some _ => true | None => false end.

Definition is_launch (k : option kind) : bool :=
  match k with Some KLaunch => true | _ => false end.

(** A truthy [string | undefined]. *)
Definition truthy_str (o : option string) : option string :=
  match o with
  | Some e => if String.eqb e EmptyString then None else Some e
  | None => None
  end.

Definition initializeRequest (supportsRunInTerminalRequest : bool) (rid : nat) : M unit :=
  modify (set_clientSupportsRunInTerminalRequest supportsRunInTerminalRequest) ;;
  sendResponse rid.

(** [stopDebuggingSession(response)] for a disconnect or terminate request. *)
Definition stopDebuggingSession (rid : nat) : M unit :=
  s <- get_state ;;
  (match s.(pendingStartResponse) with
   | Some p =>
       modify (fun s => set_responses (upd s.(responses) p (mark_success (s.(responses) p))) s) ;;
       sendResponse p ;;
       modify (set_pendingStartResponse None) ;;
       modify (set_pendingStartRequest None)
   | None => ret tt
   end) ;;
  sendResponse rid ;;
  s <- get_state ;;
  if s.(stopping) then ret tt
  else
    modify (set_stopping true) ;;
    modify (fun s => set_sessionToken (S s.(sessionToken)) s) ;;
    sendEvent Terminated ;;
    s <- get_state ;;
    let stopToken := s.(sessionToken) in
    if is_launch s.(activeKind) && isSome s.(debuggee) then
      requestDebuggeeExitBestEffort ;;
      emit (ScheduleTask (StopGraceTimer stopToken))
    else
      (if is_launch s.(activeKind) && is_win32 H then
         match truthy_str s.(launchedExecutableFullPath) with
         | Some e => killImageTreeBestEffort (path_basename H e)
         | None => ret tt
         end
       else ret tt) ;;
      emit (ScheduleTask StopTeardown).

(** The [setTimeout] callback of [stopDebuggingSession]. *)
Definition stopGraceTimer (stopToken : nat) : M unit :=
  s <- get_state ;;
  if negb (Nat.eqb stopToken s.(sessionToken)) then ret tt
  else
    (if is_win32 H then
       match s.(launchedTerminalKind), s.(launchedShellProcessId) with
       | Some Integrated, Some shellPid => killProcessDescendantsBestEffort shellPid
       | _, _ =>
           match truthy_str s.(launchedExecutableFullPath) with
           | Some e => killImageTreeBestEffort (path_basename H e)
           | None => ret tt
           end
       end
     else ret tt) ;;
    killLaunchedProcesses ;;
    closeListener ;;
    closeDebuggee ;;
    shutdown.

(** The [setImmediate] callback of [stopDebuggingSession]. *)
Definition stopTeardown : M unit :=
  killLaunchedProcesses ;;
  closeListener ;;
  closeDebuggee ;;
  shutdown.

(** [readBasicConfiguration(args)]. *)
Definition readBasicConfiguration (cfg : json) : M bool :=
  let workingDirectory :=
    if isNonEmptyString (get cfg "workingDirectory")
    then trim (as_string (get cfg "workingDirectory")) else EmptyString in
  if String.eqb workingDirectory EmptyString then ret false
  else if negb (fs_isDirectory H workingDirectory) then ret false
  else
    modify (set_workingDirectory workingDirectory) ;;
    modify (set_sourceBasePath
              (if isNonEmptyString (get cfg "sourceBasePath")
               then as_string (get cfg "sourceBasePath") else workingDirectory)) ;;
    modify (set_listenHost
              (if js_truthy (get cfg "listenPublicly") then "0.0.0.0" else "127.0.0.1")) ;;
    let port :=
      parseInt10 (match get cfg "listenPort" with
                  | None | Some JNull => EmptyString
                  | Some v => js_String H v
                  end) in
    modify (set_listenPort (match port with
                            | Framing.JsFin p => if (0 <? p)%Z then p else 56789%Z
                            | _ => 56789%Z
                            end)) ;;
    ret true.

(** The synchronous part of [openListener]: create the server, make it the
    session's listener and start listening. *)
Definition openListener (server : nat) : M unit :=
  modify (set_listener (Some server)) ;;
  s <- get_state ;;
  emit (ListenerListen server s.(listenPort) s.(listenHost)).

(** [startDebuggingSession(kind, response, request, args)] up to its
    [await]; the rest is the task [AwaitListener]. *)
Definition startDebuggingSession (k : kind) (rid : nat) (cfg : json) (server : nat) : M unit :=
  s <- get_state ;;
  let startToken := S s.(sessionToken) in
  modify (set_sessionToken startToken) ;;
  modify (set_stopping false) ;;
  modify (set_activeKind (Some k)) ;;
  killLaunchedProcesses ;;
  closeListener ;;
  closeDebuggee ;;
  ok <- readBasicConfiguration cfg ;;
  if negb ok then sendErrorResponse rid 3000 "Invalid configuration"
  else
    openListener server ;;
    emit (ScheduleTask (AwaitListener startToken k rid cfg server)).

Definition terminal_of (consolePref : option string) : option terminal_kind :=
  match consolePref with
  | Some c =>
      if String.eqb c "integratedTerminal" then Some Integrated
      else if String.eqb c "externalTerminal" then Some External
      else None
  | None => None
  end.

Definition is_integrated (k : terminal_kind) : bool :=
  match k with Integrated => true | External => false end.

(** The constants [launchTargetProcess] reads from its [args]. *)
Definition runtimeExecutableOf (cfg : json) : string :=
  if isNonEmptyString (get cfg "executable")
  then trim (as_string (get cfg "executable")) else EmptyString.

Definition argListOf (cfg : json) : list string :=
  match asStringArray (get cfg "arguments") with
  | Some l => l
  | None =>
      if isNonEmptyString (get cfg "arguments")
      then splitCommandLineS (as_string (get cfg "arguments")) else []
  end.

Definition consolePrefOf (cfg : json) : option string :=
  if isNonEmptyString (get cfg "console") then Some (as_string (get cfg "console"))
  else None.

(** [launchTargetProcess(response, args)]; [c] is the process a spawn
    would create.  (The environment overlay [asEnvMap(cfg.env)] passed
    along, and the output listeners of the child, are not modelled.) *)
Definition launchTargetProcess (rid : nat) (cfg : json) (c : child) : M bool :=
  let runtimeExecutable := runtimeExecutableOf cfg in
  if String.eqb runtimeExecutable EmptyString then
    sendErrorResponse rid 3005 "Property 'executable' is empty." ;; ret false
  else
    s <- get_state ;;
    match resolveExecutable runtimeExecutable s.(workingDirectory) with
    | None =>
        sendErrorResponse rid 3006 "Runtime executable '{path}' does not exist." ;; ret false
    | Some fullExe =>
        modify (set_launchedExecutableFullPath (Some fullExe)) ;;
        let argList := argListOf cfg in
        let consolePref := consolePrefOf cfg in
        match terminal_of consolePref with
        | Some tk =>
            s <- get_state ;;
            if negb s.(clientSupportsRunInTerminalRequest) then
              sendErrorResponse rid 3010
                "'console' was set to '{console}', but the client does not support the 'runInTerminal' request." ;;
              ret false
            else
              modify (set_launchedTerminalKind (Some tk)) ;;
              let terminalArgs :=
                if is_integrated tk && shouldWrapRunInTerminalWithCmd fullExe
                then List.app ["cmd.exe"; "/c"; fullExe] argList
                else fullExe :: argList in
              s <- get_state ;;
              next_sequence ;;
              emit (RunInTerminalRequest tk s.(workingDirectory) terminalArgs) ;;
              emit (ScheduleTask RunInTerminalCallback) ;;
              ret true
        | None =>
            s <- get_state ;;
            emit (SpawnChild c.(child_id) fullExe argList s.(workingDirectory)) ;;
            modify (set_launchedChild (Some c)) ;;
            ret true
        end
    end.

Definition waitingNotice : M unit :=
  s <- get_state ;;
  sendEvent (Output ("[sis] waiting for debuggee at " ++ s.(listenHost) ++ ":" ++
                     Z_to_decimal s.(listenPort) ++ "..." ++ newline) "console").

(** The continuation of [startDebuggingSession] once the listener settles:
    [openListener]'s [onError] or [onListening] handler, then the code after
    the [await].  [c] is the process a launch would spawn. *)
Definition listenerSettled (startToken : nat) (k : kind) (rid : nat) (cfg : json)
    (server : nat) (outcome : bind_outcome) (c : child) : M unit :=
  serverOpt <- (match outcome with
                | Listening => ret (Some server)
                | ListenError _ =>
                    modify (set_listener None) ;;
                    sendErrorResponse rid 3015 "Failed to bind TCP listener at {endpoint} ({reason})." ;;
                    ret None
                end) ;;
  s <- get_state ;;
  if negb (Nat.eqb startToken s.(sessionToken)) then
    match serverOpt with
    | Some sv => emit (ListenerClose sv)
    | None => ret tt
    end
  else
    match serverOpt with
    | None => ret tt
    | Some _ =>
        modify (set_pendingStartResponse (Some rid)) ;;
        modify (set_pendingStartRequest (Some rid)) ;;
        match k with
        | KLaunch =>
            ok <- launchTargetProcess rid cfg c ;;
            s <- get_state ;;
            if negb (Nat.eqb startToken s.(sessionToken)) then ret tt
            else if negb ok then closeListener
            else waitingNotice
        | KAttach => waitingNotice
        end
    end.

(** The reply to [runInTerminal]: [success], [body] with [processId] and
    [shellProcessId], [message]. *)
Record rit_reply := mkRitReply {
  rit_success : bool;
  rit_body : option (option Z * option Z);
  rit_message : option string
}.

(** The callback given to [runInTerminalRequest] in [launchTargetProcess]. *)
Definition onRunInTerminalResponse (runResponse : rit_reply) : M unit :=
  let failed :=
    sendEvent (Output ("[sis] runInTerminal failed: " ++
                       match runResponse.(rit_message) with
                       | Some m => m
                       | None => "unknown error"
                       end ++ newline) "stderr") in
  if runResponse.(rit_success) then
    match runResponse.(rit_body) with
    | Some (pid, shellPid) =>
        modify (set_launchedProcessId pid) ;;
        modify (set_launchedShellProcessId shellPid)
    | None => failed
    end
  else failed.

(** [onDebuggeeSocket(socket)]: the server's connection handler. *)
Definition onDebuggeeSocket (sock : nat) : M unit :=
  s <- get_state ;;
  match s.(debuggee) with
  | Some _ => emit (SocketDestroy sock)
  | None =>
      emit (SocketSetNoDelay sock) ;;
      closeListener ;;
      modify (set_debuggee (Some sock)) ;;
      s <- get_state ;;
      sendJsonMessage sock (welcome_message s.(sourceBasePath) (path_sep H)) ;;
      s <- get_state ;;
      match s.(pendingStartResponse) with
      | Some p =>
          sendResponse p ;;
          modify (set_pendingStartResponse None) ;;
          modify (set_pendingStartRequest None) ;;
          sendEvent Initialized
      | None => ret tt
      end
  end.

(** [onDebuggeeDisconnected()]: the connection's socket closed or failed,
    or its framing was rejected. *)
Definition onDebuggeeDisconnected : M unit :=
  modify (set_debuggee None) ;;
  s <- get_state ;;
  if s.(stopping) then shutdown
  else sendEvent Terminated ;; shutdown.

(** DebugSession's [new Response(request)] for an incoming request: a fresh
    object, whose [seq] is 0. *)
Definition allocResponse (seq : nat) (cmd : string) : M unit :=
  modify (fun s => set_response_seqs (upd s.(response_seqs) seq 0)
                     (set_responses (upd s.(responses) seq (new_response seq cmd)) s)).

(** *** The adapter in its environment

    A world holds the session, the continuations waiting to run, the
    sockets wrapped in a [DebuggeeConnection] (whose close handlers stay
    registered) and the effects so far.  Requests from the IDE (the
    requests forwarded to the debuggee are left out), settling of a
    listener, replies, timers and debuggee sockets are its inputs. *)

Record world := mkWorld {
  sess : session;
  tasks : list task;
  conns : list nat;
  trace : list effect;
  next_id : nat
}.

Inductive task_input :=
  | NoInput
  | BindResult (o : bind_outcome)
  | TerminalReply (r : rit_reply).

Inductive input :=
  | ReqInitialize (supportsRunInTerminalRequest : bool)
  | ReqLaunch (cfg : json)
  | ReqAttach (cfg : json)
  | ReqDisconnect
  | ReqTerminate
  | TaskRuns (i : nat) (inp : task_input)
  | DebuggeeConnects
  | DebuggeeSocketClosed (sock : nat).

Definition scheduled (effs : list effect) : list task :=
  flat_map (fun e => match e with ScheduleTask t => [t] | _ => [] end) effs.

Fixpoint remove_nth {A} (n : nat) (l : list A) : list A :=
  match n, l with
  | _, [] => []
  | O, _ :: rest => rest
  | S n', x :: rest => x :: remove_nth n' rest
  end.

(** The code a waiting continuation runs; [n] names a process it may spawn. *)
Definition run_task (t : task) (inp : task_input) (n : nat) : option (M unit) :=
  match t, inp with
  | AwaitListener tok k rid cfg server, BindResult o =>
      Some (listenerSettled tok k rid cfg server o (mkChild n (Some (Z.of_nat n))))
  | RunInTerminalCallback, TerminalReply r => Some (onRunInTerminalResponse r)
  | StopGraceTimer tok, NoInput => Some (stopGraceTimer tok)
  | StopTeardown, NoInput => Some stopTeardown
  | _, _ => None
  end.

Definition commit (w : world) (remaining : list task) (newConns : list nat) (m : M unit)
    : world :=
  let '(_, s', effs) := m w.(sess) in
  {| sess := s'; tasks := List.app remaining (scheduled effs); conns := newConns;
     trace := List.app w.(trace) effs; next_id := S w.(next_id) |}.

(** One step of the adapter; [None] when the input cannot occur.  A fresh
    number [next_id] serves as the request's sequence number, the new
    server or the new socket. *)
Definition world_step (w : world) (i : input) : option world :=
  let n := w.(next_id) in
  match i with
  | ReqInitialize b =>
      Some (commit w w.(tasks) w.(conns) (allocResponse n "initialize" ;; initializeRequest b n))
  | ReqLaunch cfg =>
      Some (commit w w.(tasks) w.(conns)
              (allocResponse n "launch" ;; startDebuggingSession KLaunch n cfg n))
  | ReqAttach cfg =>
      Some (commit w w.(tasks) w.(conns)
              (allocResponse n "attach" ;; startDebuggingSession KAttach n cfg n))
  | ReqDisconnect =>
      Some (commit w w.(tasks) w.(conns) (allocResponse n "disconnect" ;; stopDebuggingSession n))
  | ReqTerminate =>
      Some (commit w w.(tasks) w.(conns) (allocResponse n "terminate" ;; stopDebuggingSession n))
  | TaskRuns j inp =>
      match nth_error w.(tasks) j with
      | None => None
      | Some t =>
          match run_task t inp n with
          | None => None
          | Some m => Some (commit w (remove_nth j w.(tasks)) w.(conns) m)
          end
      end
  | DebuggeeConnects =>
      (* Which servers listen is not tracked: a socket may arrive at any
         time, which allows more runs than the adapter has. *)
      let newConns := if isSome w.(sess).(debuggee) then w.(conns) else n :: w.(conns) in
      Some (commit w w.(tasks) newConns (onDebuggeeSocket n))
  | DebuggeeSocketClosed sock =>
      if existsb (Nat.eqb sock) w.(conns)
      then Some (commit w w.(tasks) w.(conns) onDebuggeeDisconnected)
      else None
  end.

Fixpoint run_inputs (w : world) (inputs : list input) : option world :=
  match inputs with
  | [] => Some w
  | i :: rest =>
      match world_step w i with
      | Some w' => run_inputs w' rest
      | None => None
      end
  end.

(** A fresh session object (the field initialisers) before any request. *)
Definition initial_session : session :=
  {| debuggee := None; listener := None; pendingStartResponse := None;
     pendingStartRequest := None; sessionToken := 0; stopping := false;
     activeKind := None; customRequestSeq := 1; workingDirectory := EmptyString;
     sourceBasePath := EmptyString; listenHost := "127.0.0.1"; listenPort := 0%Z;
     launchedChild := None; launchedExecutableFullPath := None;
     launchedTerminalKind := None; launchedProcessId := None;
     launchedShellProcessId := None; clientSupportsRunInTerminalRequest := false;
     responses := fun n => new_response n EmptyString;
     sequence := 1; response_seqs := fun _ => 0 |}.

Definition initial_world : world := mkWorld initial_session [] [] [] 1.

Inductive reachable : world -> Prop :=
  | reachable_init : reachable initial_world
  | reachable_step : forall w i w', reachable w -> world_step w i = Some w' -> reachable w'.

End Adapter.

End Session.


(** *** The invariant on response objects and example runs *)

Module SessionInvariant.

Import Session.

(** The library's sequence counter is positive; every response object
    answers the request it was created for; one marked failed has a
    positive [seq] (a failure is only ever set by [sendErrorResponse], which
    passes it to [sendResponse]); and one with a positive [seq] has been
    sent. *)
Definition resp_ok (s : session) (tr : list effect) : Prop :=
  0 < s.(sequence) /\
  forall r, (s.(responses) r).(request_seq) = r /\
    ((s.(responses) r).(success) = false -> 0 < s.(response_seqs) r) /\
    (0 < s.(response_seqs) r -> exists x, In (SendResponse x) tr /\ x.(request_seq) = r).

(** A session computation keeps [resp_ok] when its effects are appended to
    the trace. *)
Definition keeps {A} (m : M A) : Prop :=
  forall s tr a s' e, m s = (a, s', e) -> resp_ok s tr -> resp_ok s' (tr ++ e).

End SessionInvariant.

Module SessionExamples.

Import Session DebuggeeMessages.
Local Open Scope string_scope.

Definition slash : ascii := Ascii.ascii_of_nat 47.

(** A POSIX host with the game installed at [/game/sis]. *)
Definition posix_host : host :=
  {| is_win32 := false;
     path_isAbsolute := fun p => match p with String c _ => Ascii.eqb c slash | EmptyString => false end;
     path_resolve := fun cwd p => cwd ++ "/" ++ p;
     path_join := fun d p => d ++ "/" ++ p;
     path_basename := fun p => p;
     path_extname := fun _ => EmptyString;
     env_PATH := Some "/usr/bin";
     env_PATHEXT := None;
     fs_existsSync := fun p => String.eqb p "/game/sis";
     fs_isDirectory := fun p => String.eqb p "/game";
     win32PeSubsystem := fun _ => None;
     js_String := fun _ => EmptyString |}.

(** Launch configurations: in the integrated terminal, as a child process,
    and one with no executable. *)
Definition cfg_terminal : json :=
  JObj [("workingDirectory", JStr "/game"); ("executable", JStr "/game/sis");
        ("console", JStr "integratedTerminal")].

Definition cfg_child : json :=
  JObj [("workingDirectory", JStr "/game"); ("executable", JStr "/game/sis")].


(** The IDE's reply to [runInTerminal]: terminal process 4242 in shell 4243. *)
Definition terminal_reply : rit_reply := mkRitReply true (Some (Some 4242%Z, Some 4243%Z)) None.

Definition world_after (inputs : list input) : world :=
  match run_inputs posix_host initial_world inputs with
  | Some w => w
  | None => initial_world
  end.

(** Initialize, launch as a child process, the listener binds: the session
    waits for the debuggee with the launch request (sequence 2) pending. *)
Definition waiting_world : world :=
  world_after [ReqInitialize true; ReqLaunch cfg_child; TaskRuns 0 (BindResult Listening)].

(** A session waiting with a pending launch response (request 2) and a listener. *)
Definition pending_session : session :=
  set_listener (Some 2) (set_pendingStartResponse (Some 2) (set_pendingStartRequest (Some 2)
    (set_responses (upd initial_session.(responses) 2 (new_response 2 "launch")) initial_session))).



End SessionExamples.

(* ===================================================================== *)
(** ** Observations of effect runs, request dispatch, [asEnvMap], PE headers *)
(* ===================================================================== *)

Module Effects.
Import Session.

(** The bytes written to socket [sock], in order, by a run of effects. *)
Definition written (sock : nat) (effs : list effect) : list byte :=
  flat_map (fun e => match e with
                     | SocketWrite k b => if Nat.eqb k sock then b else []
                     | _ => []
                     end) effs.

(** The process trees [killProcessTreeBestEffort] is asked to kill. *)
Definition killed (effs : list effect) : list Z :=
  flat_map (fun e => match e with KillProcessTree p => [p] | _ => [] end) effs.

(** How many [Terminated] events the IDE is sent. *)
Definition terminated_count (effs : list effect) : nat :=
  List.length (filter (fun e => match e with SendEvent Terminated => true | _ => false end) effs).

End Effects.

Module Dispatch.
Import DebuggeeMessages Session.
Local Open Scope string_scope.

(** A DAP request as [dispatchRequest] receives it. *)
Record request := mkRequest {
  req_seq : nat;
  req_command : string;
  req_arguments : json
}.

Section Dispatching.

Variable H : host.
(** [JSON.stringify(request)]. *)
Variable stringify : request -> string.

(** [forwardRequestToDebuggee(request)]. *)
Definition forwardRequestToDebuggee (req : request) : M unit :=
  s <- get_state ;;
  match s.(debuggee) with
  | None =>
      allocResponse req.(req_seq) req.(req_command) ;;
      sendErrorResponse req.(req_seq) 999 "Debuggee not connected (waiting on {endpoint})."
  | Some c => sendRawJsonText c (stringify req)
  end.

(** [dispatchRequest(request)]: the five requests the adapter handles go to
    DebugSession's dispatcher, which creates the response and calls the
    handler; every other request is forwarded.  [server] names the server a
    start request creates. *)
Definition dispatchRequest (req : request) (server : nat) : M unit :=
  let seq := req.(req_seq) in
  let cmd := req.(req_command) in
  if String.eqb cmd "initialize" then
    allocResponse seq cmd ;;
    initializeRequest (js_truthy (get req.(req_arguments) "supportsRunInTerminalRequest")) seq
  else if String.eqb cmd "launch" then
    allocResponse seq cmd ;; startDebuggingSession H KLaunch seq req.(req_arguments) server
  else if String.eqb cmd "attach" then
    allocResponse seq cmd ;; startDebuggingSession H KAttach seq req.(req_arguments) server
  else if String.eqb cmd "disconnect" then
    allocResponse seq cmd ;; stopDebuggingSession H seq
  else if String.eqb cmd "terminate" then
    allocResponse seq cmd ;; stopDebuggingSession H seq
  else forwardRequestToDebuggee req.

End Dispatching.

End Dispatch.

Module EnvMap.
Import DebuggeeMessages Session.
Local Open Scope string_scope.

Section Env.

Variable H : host.
(** [JSON.stringify(v)] for an object or array value (a parsed
    configuration has no cycles, so it does not throw). *)
Variable stringify_json : json -> string.

(** [Object.entries(value)] of a parsed object (its fields, in order; a
    duplicated key is met again with its later value) or of an array (its
    indices as keys). *)
Definition entries (v : json) : list (string * json) :=
  match v with
  | JObj fields => fields
  | JArr items =>
      combine (map (fun i => N_to_decimal (N.of_nat i)) (seq 0 (List.length items))) items
  | _ => []
  end.

(** [out[k] = v] on a plain object [{}]: an existing key keeps its place;
    a new key is appended; assigning a string to ["__proto__"] goes to the
    prototype setter, which ignores a primitive, so no key is added. *)
Fixpoint assign (out : list (string * string)) (k v : string) : list (string * string) :=
  match out with
  | [] => [(k, v)]
  | (k', v') :: rest => if String.eqb k' k then (k, v) :: rest else (k', v') :: assign rest k v
  end.

Definition assign_key (out : list (string * string)) (k v : string) : list (string * string) :=
  if String.eqb k "__proto__" then out else assign out k v.

(** The value stored for one entry ([undefined] does not occur in parsed
    JSON). *)
Definition env_value (v : json) : string :=
  match v with
  | JStr s => s
  | JNum _ | JBool _ => js_String H v
  | JNull => EmptyString
  | JArr _ | JObj _ => stringify_json v
  end.

(** [out[k]] on the result. *)
Fixpoint env_lookup (out : list (string * string)) (k : string) : option string :=
  match out with
  | [] => None
  | (k', v) :: rest => if String.eqb k' k then Some v else env_lookup rest k
  end.

Definition asEnvMap (value : option json) : option (list (string * string)) :=
  match value with
  | Some ((JObj _ | JArr _) as v) =>
      let out := fold_left (fun out '(k, x) => assign_key out k (env_value x)) (entries v) [] in
      if Nat.ltb 0 (List.length out) then Some out else None
  | _ => None
  end.

End Env.

End EnvMap.

Module PeImage.
Local Open Scope Z_scope.

(** [fs.readSync(fd, buf, 0, len, pos)] on a regular file with contents
    [f]: the bytes from [pos] on, at most [len] of them. *)
Definition read_at (f : list byte) (pos len : nat) : list byte :=
  firstn len (skipn pos f).

Definition byte_at (buf : list byte) (i : nat) : Z :=
  Z.of_nat (Byte.to_nat (nth i buf Byte.x00)).

Definition readUInt16LE (buf : list byte) (off : nat) : Z :=
  byte_at buf off + 256 * byte_at buf (off + 1).

Definition readUInt32LE (buf : list byte) (off : nat) : Z :=
  readUInt16LE buf off + 65536 * readUInt16LE buf (off + 2).

(** [buf.toString('ascii', 0, 4)]: the decoder clears the high bit of each
    byte. *)
Definition ascii_prefix4 (buf : list byte) : list Z :=
  map (fun b => Z.land (Z.of_nat (Byte.to_nat b)) 127) (firstn 4 buf).

(** [win32PeSubsystem(exePath)]: [is_win32] is [process.platform ===
    'win32']; [file] holds the contents of the file ([None] when
    [fs.openSync] throws). *)
Definition win32PeSubsystem (is_win32 : bool) (file : option (list byte)) : option Z :=
  if negb is_win32 then None else
  match file with
  | None => None
  | Some f =>
      let dosHeader := read_at f 0 64 in
      if negb (Nat.eqb (List.length dosHeader) 64) then None else
      let peOffset := readUInt32LE dosHeader 60 in
      let peHeader := read_at f (Z.to_nat peOffset) (4 + 20 + 72) in
      if negb (Nat.eqb (List.length peHeader) (4 + 20 + 72)) then None else
      if negb (if list_eq_dec Z.eq_dec (ascii_prefix4 peHeader) [80; 69; 0; 0] then true else false)
      then None else
      let optionalHeaderStart := (4 + 20)%nat in
      let magic := readUInt16LE peHeader optionalHeaderStart in
      if negb (Z.eqb magic 267) && negb (Z.eqb magic 523) then None else
      Some (readUInt16LE peHeader (optionalHeaderStart + 68))
  end.

End PeImage.

(* ===================================================================== *)
(** * Proofs *)
(* ===================================================================== *)

Module FramingFacts.
Import Framing.

Lemma index_of_nl_lt (b : list byte) (n : nat) :
  index_of_nl b = Some n -> n < List.length b.
Proof.
  revert n; induction b as [|c b IH]; intros n H; simpl in H; [discriminate|].
  destruct (Byte.eqb c x0a).
  - injection H as <-; simpl; lia.
  - destruct (index_of_nl b) as [m|] eqn:E; simpl in H; [|discriminate].
    injection H as <-; specialize (IH m eq_refl); simpl; lia.
Qed.

Lemma index_of_nl_app (b x : list byte) (n : nat) :
  index_of_nl b = Some n -> index_of_nl (b ++ x) = Some n.
Proof.
  revert n; induction b as [|c b IH]; intros n H; simpl in *; [discriminate|].
  destruct (Byte.eqb c x0a); [exact H|].
  destruct (index_of_nl b) as [m|] eqn:E; simpl in H; [|discriminate].
  rewrite (IH m eq_refl); exact H.
Qed.

Lemma firstn_app_le (n : nat) (b x : list byte) :
  n <= List.length b -> firstn n (b ++ x) = firstn n b.
Proof.
  intros Hn; rewrite firstn_app.
  replace (n - List.length b) with 0 by lia; simpl; apply app_nil_r.
Qed.

Lemma skipn_app_le (n : nat) (b x : list byte) :
  n <= List.length b -> skipn n (b ++ x) = skipn n b ++ x.
Proof.
  intros Hn; rewrite skipn_app.
  replace (n - List.length b) with 0 by lia; reflexivity.
Qed.

(** A complete header line that is rejected stays rejected whatever follows. *)
Lemma frame_step_app_fatal (b x : list byte) :
  frame_step b = Fatal -> frame_step (b ++ x) = Fatal.
Proof.
  unfold frame_step; intros H.
  destruct (index_of_nl b) as [nl|] eqn:E; [|discriminate].
  pose proof (index_of_nl_lt _ _ E) as Hlt.
  rewrite (index_of_nl_app _ x _ E), (firstn_app_le nl b x) by lia.
  destruct (negb (starts_with_hash (ascii_decode (firstn nl b)))); [reflexivity|].
  destruct (parse_int10 (tl (ascii_decode (firstn nl b)))) as [|size|]; try reflexivity.
  destruct (size <? 0)%Z; [reflexivity|].
  destruct (List.length b <? S nl + Z.to_nat size); discriminate.
Qed.

(** A complete frame is cut the same way whatever follows it. *)
Lemma frame_step_app_frame (b x body rest : list byte) :
  frame_step b = Frame body rest -> frame_step (b ++ x) = Frame body (rest ++ x).
Proof.
  unfold frame_step; intros H.
  destruct (index_of_nl b) as [nl|] eqn:E; [|discriminate].
  pose proof (index_of_nl_lt _ _ E) as Hlt.
  rewrite (index_of_nl_app _ x _ E), (firstn_app_le nl b x) by lia.
  destruct (negb (starts_with_hash (ascii_decode (firstn nl b)))); [discriminate|].
  destruct (parse_int10 (tl (ascii_decode (firstn nl b)))) as [|size|]; try discriminate.
  destruct (size <? 0)%Z; [discriminate|].
  destruct (List.length b <? S nl + Z.to_nat size) eqn:L; [discriminate|].
  assert (body = firstn (Z.to_nat size) (skipn (S nl) b)) as -> by congruence.
  assert (rest = skipn (S nl + Z.to_nat size) b) as -> by congruence.
  apply Nat.ltb_ge in L.
  rewrite length_app.
  replace (List.length b + List.length x <? S nl + Z.to_nat size) with false
    by (symmetry; apply Nat.ltb_ge; lia).
  rewrite (skipn_app_le (S nl) b x) by lia.
  rewrite (skipn_app_le (S nl + Z.to_nat size) b x) by lia.
  rewrite (firstn_app_le (Z.to_nat size)); [reflexivity|].
  rewrite length_skipn; lia.
Qed.

Lemma frame_step_shorter (b body rest : list byte) :
  frame_step b = Frame body rest -> List.length rest < List.length b.
Proof.
  unfold frame_step; intros H.
  destruct (index_of_nl b) as [nl|] eqn:E; [|discriminate].
  destruct (negb (starts_with_hash (ascii_decode (firstn nl b)))); [discriminate|].
  destruct (parse_int10 (tl (ascii_decode (firstn nl b)))) as [|size|]; try discriminate.
  destruct (size <? 0)%Z; [discriminate|].
  destruct (List.length b <? S nl + Z.to_nat size) eqn:L; [discriminate|].
  assert (rest = skipn (S nl + Z.to_nat size) b) as -> by congruence.
  apply Nat.ltb_ge in L; rewrite length_skipn; lia.
Qed.

Lemma drain_fuel_irrel (f1 f2 : nat) (buf : list byte) :
  List.length buf < f1 -> List.length buf < f2 -> drain_fuel f1 buf = drain_fuel f2 buf.
Proof.
  revert f2 buf; induction f1 as [|f1 IH]; intros f2 buf H1 H2; [lia|].
  destruct f2 as [|f2]; [lia|]; simpl.
  destruct (frame_step buf) as [| |body rest] eqn:E; try reflexivity.
  pose proof (frame_step_shorter _ _ _ E) as Hs.
  rewrite (IH f2 rest) by lia; reflexivity.
Qed.

Lemma drain_fuel_enough (f : nat) (buf : list byte) :
  List.length buf < f -> drain_fuel f buf = drain buf.
Proof. intros H; apply drain_fuel_irrel; lia. Qed.

(** The unfolding equation of the [while (true)] loop. *)
Lemma drain_eq (buf : list byte) :
  drain buf =
    match frame_step buf with
    | NeedMore => ([], buf)
    | Fatal => ([Closed], buf)
    | Frame body rest =>
        let '(evs, buf') := drain rest in (Message body :: evs, buf')
    end.
Proof.
  unfold drain at 1; simpl.
  destruct (frame_step buf) as [| |body rest] eqn:E; try reflexivity.
  rewrite drain_fuel_enough; [reflexivity|].
  pose proof (frame_step_shorter _ _ _ E); lia.
Qed.

(** After the loop the buffer never holds a complete, acceptable frame. *)
Lemma drain_leftover_stuck (buf : list byte) :
  frame_step (snd (drain buf)) = NeedMore \/ frame_step (snd (drain buf)) = Fatal.
Proof.
  remember (List.length buf) as n eqn:Hn; revert buf Hn.
  induction n as [n IH] using lt_wf_ind; intros buf Hn.
  rewrite drain_eq.
  destruct (frame_step buf) as [| |body rest] eqn:E; simpl.
  - left; exact E.
  - right; exact E.
  - pose proof (frame_step_shorter _ _ _ E).
    destruct (drain rest) as [evs b'] eqn:D; simpl.
    specialize (IH (List.length rest) ltac:(lia) rest eq_refl).
    rewrite D in IH; exact IH.
Qed.

Lemma bodies_app (e1 e2 : list conn_event) :
  bodies (e1 ++ e2) = bodies e1 ++ bodies e2.
Proof. unfold bodies; apply flat_map_app. Qed.

(** The central splitting lemma: draining [b ++ x] emits the bodies of
    draining [b], followed by those of draining what [b] left over, with
    [x] appended. *)
Lemma drain_app_bodies (b x : list byte) :
  bodies (fst (drain (b ++ x))) =
    bodies (fst (drain b)) ++ bodies (fst (drain (snd (drain b) ++ x))).
Proof.
  remember (List.length b) as n eqn:Hn; revert b Hn.
  induction n as [n IH] using lt_wf_ind; intros b Hn.
  destruct (frame_step b) as [| |body rest] eqn:E.
  - rewrite (drain_eq b), E; reflexivity.
  - rewrite (drain_eq b), E; simpl.
    rewrite drain_eq, (frame_step_app_fatal _ _ E); reflexivity.
  - pose proof (frame_step_shorter _ _ _ E) as Hs.
    rewrite (drain_eq (b ++ x)), (frame_step_app_frame _ _ _ _ E).
    rewrite (drain_eq b), E.
    specialize (IH (List.length rest) ltac:(lia) rest eq_refl).
    destruct (drain (rest ++ x)) as [evs1 b1] eqn:D1.
    destruct (drain rest) as [evs2 b2] eqn:D2.
    simpl in *. rewrite IH. reflexivity.
Qed.

Lemma drain_stuck_no_bodies (buf : list byte) :
  frame_step buf = NeedMore \/ frame_step buf = Fatal ->
  bodies (fst (drain buf)) = [].
Proof.
  intros [E|E]; rewrite drain_eq, E; reflexivity.
Qed.

Lemma feed_bodies (chunks : list (list byte)) (buf : list byte) :
  frame_step buf = NeedMore \/ frame_step buf = Fatal ->
  bodies (feed buf chunks) = bodies (fst (drain (buf ++ List.concat chunks))).
Proof.
  unfold feed; revert buf; induction chunks as [|c cs IH]; intros buf Hb; simpl.
  - rewrite app_nil_r, drain_stuck_no_bodies by exact Hb; reflexivity.
  - unfold onData.
    pose proof (drain_leftover_stuck (buf ++ c)) as Hst.
    destruct (drain (buf ++ c)) as [evs b'] eqn:D.
    rewrite bodies_app, (IH b') by exact Hst.
    rewrite app_assoc, (drain_app_bodies (buf ++ c) (List.concat cs)), D.
    reflexivity.
Qed.

(** One [onData] call reports a run of bodies, then at most one closed
    signal, and the closed signal leaves a rejected header in the buffer. *)
Lemma drain_shape (buf : list byte) :
  let '(evs, buf') := drain buf in
  exists bs, frames_of buf bs buf' /\
  ((evs = map Message bs /\ frame_step buf' = NeedMore) \/
   (evs = map Message bs ++ [Closed] /\ frame_step buf' = Fatal)).
Proof.
  remember (List.length buf) as n eqn:Hn; revert buf Hn.
  induction n as [n IH] using lt_wf_ind; intros buf Hn.
  rewrite drain_eq.
  destruct (frame_step buf) as [| |body rest] eqn:E.
  - exists []; split; [reflexivity|]. left; split; [reflexivity | exact E].
  - exists []; split; [reflexivity|]. right; split; [reflexivity | exact E].
  - pose proof (frame_step_shorter _ _ _ E).
    specialize (IH (List.length rest) ltac:(lia) rest eq_refl).
    destruct (drain rest) as [evs b'] eqn:D.
    destruct IH as [bs [Hf [[-> Hb] | [-> Hb]]]];
      exists (body :: bs); (split; [exists rest; split; [exact E | exact Hf]|]).
    + left; split; [reflexivity | exact Hb].
    + right; split; [reflexivity | exact Hb].
Qed.

(** Once a rejected header is buffered, every further chunk only repeats
    the closed signal. *)
Lemma feed_after_fatal (buf : list byte) (later : list (list byte)) :
  frame_step buf = Fatal -> feed buf later = repeat Closed (List.length later).
Proof.
  unfold feed; revert buf; induction later as [|c cs IH]; intros buf H; [reflexivity|].
  simpl; unfold onData; rewrite drain_eq, (frame_step_app_fatal _ _ H).
  simpl; f_equal; apply IH, frame_step_app_fatal, H.
Qed.

(** ** Claim C1 *)

(** C1 (chunking invariance): feeding the chunks of a byte stream one at a
    time to a fresh connection's [onData] reports exactly the message bodies,
    in the same order, that feeding the whole stream as one chunk reports,
    wherever the chunk boundaries fall. *)
Theorem onData_chunking_invariant (chunks : list (list byte)) :
  bodies (feed [] chunks) = bodies (feed [] [List.concat chunks]).
Proof.
  rewrite !feed_bodies by (left; reflexivity).
  simpl; rewrite app_nil_r; reflexivity.
Qed.

(** ** Claim C2 *)

(** C2, counterexample: a rejected header (["x\n"]) followed by one more
    chunk signals closed twice, and so does a rejected header followed by the
    socket's close event; a length field ["1x"] is not rejected, parseInt
    reads it as 1. *)
Lemma fatal_header_closed_twice :
  feed [] [[x78; x0a]; [x61]] = [Closed; Closed] /\
  run [] [Data [x78; x0a]; SockClose] = [Closed; Closed] /\
  feed [] [[x23; x31; x78; x0a; x41]] = [Message [x41]].
Proof. vm_compute; repeat split; reflexivity. Qed.

(** C2, as the code does it: one [onData] call reports the bodies [bs] of
    the complete frames it cuts, in order, off the front of the old buffer
    followed by the chunk, and keeps what follows them as the new buffer;
    after the bodies the closed callback fires at most once, as the last
    report, and only when the new buffer starts with a rejected complete
    header; that header stays buffered, so no body is ever reported again
    while each later chunk signals closed once more; socket close and error
    each signal closed on their own. *)
Theorem fatal_framing_not_latched (buffer chunk : list byte) :
  (let '(evs, buffer') := onData buffer chunk in
   exists bs, frames_of (buffer ++ chunk) bs buffer' /\
   ((evs = map Message bs /\ frame_step buffer' = NeedMore) \/
    (evs = map Message bs ++ [Closed] /\ frame_step buffer' = Fatal /\
     forall later : list (list byte),
       feed buffer' later = repeat Closed (List.length later)))) /\
  on_socket buffer SockClose = ([Closed], buffer) /\
  on_socket buffer SockError = ([Closed], buffer).
Proof.
  split; [|split; reflexivity].
  unfold onData; pose proof (drain_shape (buffer ++ chunk)) as Hs.
  destruct (drain (buffer ++ chunk)) as [evs b'].
  destruct Hs as [bs [Hf [H | [-> Hb]]]]; exists bs; split; [exact Hf | left; exact H | exact Hf |].
  right; split; [reflexivity|]; split; [exact Hb|].
  intros later; apply feed_after_fatal, Hb.
Qed.

End FramingFacts.

Module CommandLineFacts.
Import CommandLine.
Local Open Scope N_scope.

Lemma space_not_quote (c : N) : is_regex_space c = true -> N.eqb c quote = false.
Proof.
  intros H; apply N.eqb_neq; intros ->; discriminate H.
Qed.

Lemma neq_quote (c : N) : c <> quote -> N.eqb c quote = false.
Proof. apply N.eqb_neq. Qed.

Lemma render_q_app (b1 b2 : list qchar) : render_q (b1 ++ b2) = render_q b1 ++ render_q b2.
Proof. unfold render_q; apply flat_map_app. Qed.

Lemma value_q_app (b1 b2 : list qchar) : value_q (b1 ++ b2) = value_q b1 ++ value_q b2.
Proof. unfold value_q; apply map_app. Qed.

Lemma token_value_snoc (cur : list item) (it : item) :
  token_value (cur ++ [it]) = token_value cur ++ item_value it.
Proof. unfold token_value; rewrite flat_map_app; simpl; rewrite app_nil_r; reflexivity. Qed.

(** Inside a quoted span: the body is read up to its closing quote. *)
Lemma split_quoted_body (b : list qchar) (rest current : js_string) :
  Forall wf_qchar b -> hd_error rest <> Some quote ->
  split_loop (render_q b ++ quote :: rest) true current =
    split_loop rest false (current ++ value_q b).
Proof.
  revert current; induction b as [|q b IH]; intros current Hb Hr; simpl.
  - rewrite app_nil_r.
    destruct rest as [|next rest']; [reflexivity|].
    simpl in Hr. replace (N.eqb next quote) with false
      by (symmetry; apply N.eqb_neq; congruence).
    reflexivity.
  - inversion Hb as [|? ? Hq Hb']; subst.
    destruct q as [c|]; simpl in *.
    + rewrite (neq_quote c Hq); simpl.
      rewrite IH by assumption; rewrite <- app_assoc; reflexivity.
    + rewrite IH by assumption; rewrite <- app_assoc; reflexivity.
Qed.

(** A span left open runs to the end of the input. *)
Lemma split_open_body (b : list qchar) (current : js_string) :
  Forall wf_qchar b ->
  split_loop (render_q b) true current = flush (current ++ value_q b).
Proof.
  revert current; induction b as [|q b IH]; intros current Hb; simpl.
  - rewrite app_nil_r; reflexivity.
  - inversion Hb as [|? ? Hq Hb']; subst.
    destruct q as [c|]; simpl in *.
    + rewrite (neq_quote c Hq); simpl.
      rewrite IH by assumption; rewrite <- app_assoc; reflexivity.
    + rewrite IH by assumption; rewrite <- app_assoc; reflexivity.
Qed.

Lemma render_head_not_quote (its : list item) :
  wf_items its -> opens_quote its = false -> hd_error (render its) <> Some quote.
Proof.
  destruct its as [|[c|c|b|b] rest]; simpl; intros Hwf Ho; try discriminate.
  - destruct Hwf as [Hs _]; intros H; injection H as E; subst c; discriminate Hs.
  - destruct Hwf as [Hq _]; intros H; injection H as E; tauto.
Qed.

(** A quote met outside quotes only opens a span. *)
Lemma split_open_quote (s : js_string) (current : js_string) :
  split_loop (quote :: s) false current = split_loop s true current.
Proof. destruct s; reflexivity. Qed.

Lemma filter_flush (v : js_string) : filter nonempty [v] = flush v.
Proof. destruct v; reflexivity. Qed.

(** The loop, started outside quotes with the value of the pending items
    [cur] as [current], returns the non-empty values of the tokens. *)
Lemma split_loop_items (its cur : list item) :
  wf_items its ->
  split_loop (render its) false (token_value cur) =
    filter nonempty (map token_value (tokens_from its cur)).
Proof.
  revert cur; induction its as [|[c|c|b|b] rest IH]; intros cur Hwf; simpl in Hwf.
  - simpl. destruct cur as [|it cur']; [reflexivity|].
    simpl tokens_from; simpl map; rewrite filter_flush; reflexivity.
  - destruct Hwf as [Hs Hwf].
    change (render (ISpace c :: rest)) with (c :: render rest); simpl split_loop.
    rewrite (space_not_quote c Hs), Hs; simpl.
    destruct cur as [|it cur'].
    + apply (IH [] Hwf).
    + cbn [tokens_from map].
      destruct (token_value (it :: cur')) as [|v vs]; cbn [filter nonempty].
      * apply (IH [] Hwf).
      * f_equal; apply (IH [] Hwf).
  - destruct Hwf as (Hq & Hs & Hwf).
    change (render (IPlain c :: rest)) with (c :: render rest); simpl split_loop.
    rewrite (neq_quote c Hq), Hs; simpl.
    rewrite <- (IH (cur ++ [IPlain c]) Hwf), token_value_snoc; reflexivity.
  - destruct Hwf as (Hb & Ho & Hwf).
    replace (render (IQuoted b :: rest))
      with (quote :: (render_q b ++ quote :: render rest))
      by (simpl; rewrite <- app_assoc; reflexivity).
    rewrite split_open_quote.
    rewrite split_quoted_body by (auto using render_head_not_quote).
    simpl tokens_from.
    rewrite <- (IH (cur ++ [IQuoted b]) Hwf), token_value_snoc; reflexivity.
  - destruct Hwf as (Hb & ->).
    replace (render [IUnclosed b]) with (quote :: (render_q b ++ []))
      by (simpl; rewrite !app_nil_r; reflexivity).
    rewrite app_nil_r.
    rewrite split_open_quote.
    rewrite split_open_body by exact Hb.
    simpl tokens_from.
    destruct (cur ++ [IUnclosed b]) as [|x xs] eqn:E; [destruct cur; discriminate|].
    rewrite <- E; simpl map; rewrite filter_flush, token_value_snoc; reflexivity.
Qed.

Section LexEquations.
Variables (c c2 : N) (r : js_string) (acc : list qchar).

Lemma lex_quote : lex (quote :: r) = lex_quoted r [].
Proof. reflexivity. Qed.

Lemma lex_other : c <> quote ->
  lex (c :: r) = (if is_regex_space c then ISpace c else IPlain c) :: lex r.
Proof. intros H; simpl; rewrite (neq_quote c H); reflexivity. Qed.

Lemma lex_quoted_end : lex_quoted [] acc = [IUnclosed (rev acc)].
Proof. reflexivity. Qed.

Lemma lex_quoted_last : lex_quoted [quote] acc = [IQuoted (rev acc)].
Proof. reflexivity. Qed.

Lemma lex_quoted_escape : lex_quoted (quote :: quote :: r) acc = lex_quoted r (QEscape :: acc).
Proof. reflexivity. Qed.

Lemma lex_quoted_close : c2 <> quote ->
  lex_quoted (quote :: c2 :: r) acc = IQuoted (rev acc) :: lex (c2 :: r).
Proof. intros H; simpl; rewrite (neq_quote c2 H); reflexivity. Qed.

Lemma lex_quoted_char : c <> quote ->
  lex_quoted (c :: r) acc = lex_quoted r (QChar c :: acc).
Proof. intros H; simpl; rewrite (neq_quote c H); reflexivity. Qed.

End LexEquations.

Lemma render_cons (it : item) (its : list item) :
  render (it :: its) = render_item it ++ render its.
Proof. reflexivity. Qed.

(** Every code-unit string is the rendering of a well-formed item sequence. *)
Lemma lex_render (n : nat) :
  forall s : js_string, (List.length s < n)%nat ->
  (wf_items (lex s) /\ render (lex s) = s) /\
  (forall acc, Forall wf_qchar acc ->
     wf_items (lex_quoted s acc) /\
     render (lex_quoted s acc) = quote :: render_q (rev acc) ++ s).
Proof.
  induction n as [|n IH]; intros s Hs; [simpl in Hs; lia|].
  destruct s as [|c r].
  - split; [split; reflexivity|].
    intros acc Hacc; rewrite lex_quoted_end; split.
    + split; [apply Forall_rev, Hacc | reflexivity].
    + simpl; rewrite !app_nil_r; reflexivity.
  - simpl in Hs.
    destruct (IH r ltac:(lia)) as [[Hw Hr] Hq].
    destruct (N.eq_dec c quote) as [->|Ec].
    + split.
      * rewrite lex_quote; destruct (Hq [] (Forall_nil _)) as [Hw' Hr'].
        split; [exact Hw'|]; rewrite Hr'; reflexivity.
      * intros acc Hacc.
        destruct r as [|c2 r'].
        -- rewrite lex_quoted_last; split.
           ++ split; [apply Forall_rev, Hacc | split; reflexivity].
           ++ simpl; rewrite !app_nil_r; reflexivity.
        -- destruct (N.eq_dec c2 quote) as [->|E2].
           ++ simpl in Hs.
              destruct (IH r' ltac:(lia)) as [_ Hq'].
              rewrite lex_quoted_escape.
              destruct (Hq' (QEscape :: acc) ltac:(constructor; [exact I | exact Hacc]))
                as [Hw' Hr'].
              split; [exact Hw'|]; rewrite Hr'.
              simpl rev; rewrite render_q_app, <- app_assoc; reflexivity.
           ++ rewrite (lex_quoted_close c2 r' acc E2); split.
              ** split; [apply Forall_rev, Hacc|]. split; [|exact Hw].
                 rewrite (lex_other c2 r' E2); destruct (is_regex_space c2); reflexivity.
              ** rewrite render_cons, Hr; simpl; rewrite <- app_assoc; reflexivity.
    + split.
      * rewrite (lex_other c r Ec).
        destruct (is_regex_space c) eqn:Es; rewrite render_cons, Hr;
          (split; [|reflexivity]).
        -- split; assumption.
        -- repeat split; assumption.
      * intros acc Hacc; rewrite (lex_quoted_char c r acc Ec).
        destruct (Hq (QChar c :: acc) ltac:(constructor; [exact Ec | exact Hacc])) as [Hw' Hr'].
        split; [exact Hw'|]; rewrite Hr'.
        simpl rev; rewrite render_q_app, <- app_assoc; reflexivity.
Qed.
(** ** Claim C9 *)

(** C9, counterexample: in [a "" b] the quoted empty span forms a
    whitespace-delimited token of its own (its text is empty), yet
    [splitCommandLine] returns only [a] and [b]. *)
Lemma split_drops_empty_quoted_token :
  render [IPlain 97; ISpace 32; IQuoted []; ISpace 32; IPlain 98] = [97; 32; 34; 34; 32; 98] /\
  map token_value (tokens [IPlain 97; ISpace 32; IQuoted []; ISpace 32; IPlain 98])
    = [[97]; []; [98]] /\
  splitCommandLine [97; 32; 34; 34; 32; 98] = [[97]; [98]].
Proof. vm_compute; repeat split. Qed.

(** C9, as the code does it: every input string reads as a sequence of
    white space, plain characters, closed quoted spans (in which [""] stands
    for one literal quote) and a final span left open up to the end of the
    input; for every such reading, [splitCommandLine] returns the texts of
    the maximal runs of non-space items (the tokens between white-space runs
    outside quotes), in order, leaving out the tokens whose text is empty. *)
Theorem splitCommandLine_tokens :
  (forall s : js_string, exists its, wf_items its /\ render its = s) /\
  (forall its : list item, wf_items its ->
     splitCommandLine (render its) = filter nonempty (map token_value (tokens its))).
Proof.
  split.
  - intros s; exists (lex s).
    exact (proj1 (lex_render (S (List.length s)) s (Nat.lt_succ_diag_r _))).
  - intros its Hwf; unfold splitCommandLine, tokens.
    exact (split_loop_items its [] Hwf).
Qed.

End CommandLineFacts.

Module DebuggeeMessagesFacts.
Import DebuggeeMessages.
Local Open Scope string_scope.






(** ** Claim C8 *)




End DebuggeeMessagesFacts.

Module SessionFacts.

Import Session SessionInvariant SessionExamples DebuggeeMessages.

(** *** Computing with the session monad *)

Lemma bind_get {B} (k : session -> M B) s : bind get_state k s = k s s.
Proof. unfold bind, get_state. destruct (k s s) as [[b s2] e2]. reflexivity. Qed.

Lemma bind_step {A B} (m : M A) (k : A -> M B) s a s1 e1 :
  m s = (a, s1, e1) ->
  exists b s2 e2, k a s1 = (b, s2, e2) /\ bind m k s = (b, s2, e1 ++ e2).
Proof. intros E. unfold bind. rewrite E. destruct (k a s1) as [[b s2] e2]. eauto. Qed.

Lemma bind_eq {A B} (m : M A) (k : A -> M B) s a s1 e1 :
  m s = (a, s1, e1) -> bind m k s = let '(b, s2, e2) := k a s1 in (b, s2, e1 ++ e2).
Proof. intros E. unfold bind. rewrite E. reflexivity. Qed.

Lemma upd_same {A} (f : nat -> A) k r : upd f k r k = r.
Proof. unfold upd. rewrite Nat.eqb_refl. reflexivity. Qed.

Lemma upd_other {A} (f : nat -> A) k r n : n <> k -> upd f k r n = f n.
Proof. intros Hn. unfold upd. apply Nat.eqb_neq in Hn. rewrite Hn. reflexivity. Qed.

Lemma run_inputs_reachable H w inputs w' :
  reachable H w -> run_inputs H w inputs = Some w' -> reachable H w'.
Proof.
  revert w. induction inputs as [|i rest IH]; cbn; intros w Hr E.
  - injection E as <-. exact Hr.
  - destruct (world_step H w i) as [w1|] eqn:Es; [|discriminate].
    apply (IH w1); [eapply reachable_step; eauto | exact E].
Qed.

(** *** Sending responses *)

Lemma sendResponse_eq rid s :
  sendResponse rid s =
    if Nat.ltb 0 (s.(response_seqs) rid) then (tt, s, [])
    else (tt, mark_sent rid s, [SendResponse (s.(responses) rid)]).
Proof. unfold sendResponse. rewrite bind_get. destruct (Nat.ltb 0 _); reflexivity. Qed.

Lemma sendErrorResponse_eq rid code format s :
  sendErrorResponse rid code format s =
    let s1 := set_responses (upd s.(responses) rid (mark_error code format (s.(responses) rid))) s in
    if Nat.ltb 0 (s.(response_seqs) rid) then (tt, s1, [])
    else (tt, mark_sent rid s1, [SendResponse (mark_error code format (s.(responses) rid))]).
Proof.
  unfold sendErrorResponse. erewrite bind_eq by reflexivity. cbv zeta.
  rewrite sendResponse_eq. cbn [set_responses response_seqs responses].
  rewrite upd_same. destruct (Nat.ltb 0 _); reflexivity.
Qed.

(** *** Stopping *)

(** A stop with a pending start response not sent yet sends that response
    first, marked successful and without a message. *)
Lemma stop_pending_first H (s : session) rid p :
  s.(pendingStartResponse) = Some p -> s.(response_seqs) p = 0 ->
  exists rest s',
    stopDebuggingSession H rid s = (tt, s', SendResponse (mark_success (s.(responses) p)) :: rest).
Proof.
  intros Hp Hq. unfold stopDebuggingSession. rewrite bind_get, Hp.
  match goal with |- exists _ _, bind ?m ?k s = _ =>
    assert (E : m s = (tt, set_pendingStartRequest None (set_pendingStartResponse None
                  (mark_sent p (set_responses (upd s.(responses) p (mark_success (s.(responses) p))) s))),
                  [SendResponse (mark_success (s.(responses) p))]));
    [ | destruct (bind_step m k s _ _ _ E) as ([] & s2 & e2 & _ & ->); exists e2, s2; reflexivity ] end.
  unfold sendResponse, bind, modify, get_state, emit, ret. cbn -[upd mark_sent].
  rewrite Hq. cbn -[upd mark_sent]. rewrite upd_same. reflexivity.
Qed.

(** *** Launch failures *)


(** *** The response invariant holds in every reachable world *)

Lemma resp_ok_app s tr e : resp_ok s tr -> resp_ok s (tr ++ e).
Proof.
  intros [Hs0 Hok]. split; [exact Hs0|]. intros r. destruct (Hok r) as (Hq & Hf & Hs).
  split; [exact Hq|]. split; [exact Hf|].
  intros Hp. destruct (Hs Hp) as (x & Hin & Hx). exists x.
  split; [apply in_or_app; auto | exact Hx].
Qed.

Lemma keeps_ret {A} (a : A) : keeps (ret a).
Proof. intros s tr b s' e E Hok. injection E as <- <- <-. now rewrite app_nil_r. Qed.

Lemma keeps_get : keeps get_state.
Proof. intros s tr b s' e E Hok. injection E as <- <- <-. now rewrite app_nil_r. Qed.

Lemma keeps_emit e0 : keeps (emit e0).
Proof. intros s tr b s' e E Hok. injection E as <- <- <-. now apply resp_ok_app. Qed.

Lemma keeps_modify f :
  (forall s, (f s).(responses) = s.(responses) /\ (f s).(response_seqs) = s.(response_seqs) /\
             s.(sequence) <= (f s).(sequence)) ->
  keeps (modify f).
Proof.
  intros Hf s tr b s' e E [Hs0 Hok]. injection E as <- <- <-. rewrite app_nil_r.
  destruct (Hf s) as (Hr & Hq & Hs). split; [lia|].
  intros r. rewrite Hr, Hq. apply Hok.
Qed.

Lemma keeps_bind {A B} (m : M A) (k : A -> M B) :
  keeps m -> (forall a, keeps (k a)) -> keeps (bind m k).
Proof.
  intros Hm Hk s tr b s' e E Hok. unfold bind in E.
  destruct (m s) as [[a s1] e1] eqn:E1. destruct (k a s1) as [[b2 s2] e2] eqn:E2.
  injection E as <- <- <-. rewrite app_assoc.
  eapply Hk; [exact E2|]. eapply Hm; [exact E1|exact Hok].
Qed.

Lemma keeps_mark_success p :
  keeps (modify (fun s => set_responses (upd s.(responses) p (mark_success (s.(responses) p))) s)).
Proof.
  intros s tr b s' e E [Hs0 Hok]. injection E as <- <- <-. rewrite app_nil_r.
  split; [exact Hs0|].
  intros r. cbn. unfold upd. destruct (Nat.eqb r p) eqn:Er.
  - apply Nat.eqb_eq in Er. subst r. cbn. split; [apply Hok|]. split; [discriminate|apply Hok].
  - apply Hok.
Qed.

Lemma keeps_alloc seq cmd : keeps (allocResponse seq cmd).
Proof.
  intros s tr b s' e E [Hs0 Hok]. injection E as <- <- <-. rewrite app_nil_r.
  split; [exact Hs0|].
  intros r. cbn. unfold upd. destruct (Nat.eqb r seq) eqn:Er.
  - apply Nat.eqb_eq in Er. subst r. cbn. split; [reflexivity|]. split; [discriminate|lia].
  - apply Hok.
Qed.

Lemma keeps_sendResponse rid : keeps (sendResponse rid).
Proof.
  intros s tr b s' e E [Hs0 Hok]. rewrite sendResponse_eq in E.
  destruct (Nat.ltb 0 (response_seqs s rid)) eqn:Elt; injection E as <- <- <-.
  - rewrite app_nil_r. split; assumption.
  - split; [cbn; lia|]. intros r. cbn. unfold upd. destruct (Nat.eqb r rid) eqn:Er.
    + apply Nat.eqb_eq in Er. subst r. split; [apply Hok|]. split; [intros _; exact Hs0|].
      intros _. exists (responses s rid). split; [apply in_or_app; right; left; reflexivity|].
      apply Hok.
    + destruct (Hok r) as (Hq & Hf & Hs). split; [exact Hq|]. split; [exact Hf|].
      intros Hp. destruct (Hs Hp) as (x & Hin & Hx). exists x.
      split; [apply in_or_app; auto | exact Hx].
Qed.

Lemma keeps_sendErrorResponse rid code format : keeps (sendErrorResponse rid code format).
Proof.
  intros s tr b s' e E [Hs0 Hok]. rewrite sendErrorResponse_eq in E. cbv zeta in E.
  destruct (Nat.ltb 0 (response_seqs s rid)) eqn:Elt; injection E as <- <- <-.
  - rewrite app_nil_r. split; [exact Hs0|]. apply Nat.ltb_lt in Elt.
    intros r. cbn. unfold upd. destruct (Nat.eqb r rid) eqn:Er.
    + apply Nat.eqb_eq in Er. subst r. split; [apply Hok|]. split; [intros _; exact Elt|apply Hok].
    + apply Hok.
  - split; [cbn; lia|]. intros r. cbn. unfold upd. destruct (Nat.eqb r rid) eqn:Er.
    + apply Nat.eqb_eq in Er. subst r. split; [apply Hok|]. split; [intros _; exact Hs0|].
      intros _. eexists. split; [apply in_or_app; right; left; reflexivity|]. apply Hok.
    + destruct (Hok r) as (Hq & Hf & Hs). split; [exact Hq|]. split; [exact Hf|].
      intros Hp. destruct (Hs Hp) as (x & Hin & Hx). exists x.
      split; [apply in_or_app; auto | exact Hx].
Qed.

Lemma keeps_for_each {A} (l : list A) f : (forall x, keeps (f x)) -> keeps (for_each l f).
Proof.
  intros Hf. induction l as [|x rest IH]; cbn.
  - apply keeps_ret.
  - apply keeps_bind; auto.
Qed.

Create HintDb keepsdb.
#[local] Hint Resolve keeps_ret keeps_get keeps_emit keeps_mark_success keeps_alloc
  keeps_sendResponse keeps_sendErrorResponse : keepsdb.

Ltac keeps_tac :=
  repeat match goal with
  | |- keeps (bind _ _) => apply keeps_bind; [ | intro ]
  | |- keeps (for_each _ _) => apply keeps_for_each; intro
  | |- keeps (modify (fun s => set_responses _ s)) => solve [eauto with keepsdb]
  | |- keeps (modify _) => apply keeps_modify; intro; cbn; split; [reflexivity | split; [reflexivity | lia]]
  | |- keeps (if ?b then _ else _) => destruct b
  | |- keeps (match ?x with _ => _ end) => destruct x
  | |- keeps _ => solve [eauto with keepsdb]
  end.

Lemma keeps_sendEvent ev : keeps (sendEvent ev).
Proof. unfold sendEvent, next_sequence. keeps_tac. Qed.

Lemma keeps_next_sequence : keeps next_sequence.
Proof. unfold next_sequence. keeps_tac. Qed.
#[local] Hint Resolve keeps_sendEvent keeps_next_sequence : keepsdb.

Lemma keeps_sendRawJsonText sock text : keeps (sendRawJsonText sock text).
Proof. unfold sendRawJsonText. cbv zeta. keeps_tac. Qed.
#[local] Hint Resolve keeps_sendRawJsonText : keepsdb.

Lemma keeps_closeDebuggee : keeps closeDebuggee.
Proof. unfold closeDebuggee. keeps_tac. Qed.

Lemma keeps_closeListener : keeps closeListener.
Proof. unfold closeListener. keeps_tac. Qed.
#[local] Hint Resolve keeps_closeDebuggee keeps_closeListener : keepsdb.

Lemma keeps_killLaunchedProcesses : keeps killLaunchedProcesses.
Proof. unfold killLaunchedProcesses, killProcessTreeBestEffort. cbv zeta. keeps_tac. Qed.

Lemma keeps_requestDebuggeeExitBestEffort : keeps requestDebuggeeExitBestEffort.
Proof. unfold requestDebuggeeExitBestEffort. cbv zeta. keeps_tac. Qed.
#[local] Hint Resolve keeps_killLaunchedProcesses keeps_requestDebuggeeExitBestEffort : keepsdb.

Lemma keeps_stop H rid : keeps (stopDebuggingSession H rid).
Proof. unfold stopDebuggingSession, killImageTreeBestEffort. cbv zeta. keeps_tac. Qed.

Lemma keeps_stopGraceTimer H t : keeps (stopGraceTimer H t).
Proof.
  unfold stopGraceTimer, killImageTreeBestEffort, killProcessDescendantsBestEffort, shutdown.
  keeps_tac.
Qed.

Lemma keeps_stopTeardown : keeps stopTeardown.
Proof. unfold stopTeardown, shutdown. keeps_tac. Qed.

Lemma keeps_readBasicConfiguration H cfg : keeps (readBasicConfiguration H cfg).
Proof. unfold readBasicConfiguration. cbv zeta. keeps_tac. Qed.

Lemma keeps_openListener server : keeps (openListener server).
Proof. unfold openListener. keeps_tac. Qed.
#[local] Hint Resolve keeps_readBasicConfiguration keeps_openListener : keepsdb.

Lemma keeps_start H k rid cfg server : keeps (startDebuggingSession H k rid cfg server).
Proof. unfold startDebuggingSession. cbv zeta. keeps_tac. Qed.

Lemma keeps_launch H rid cfg c : keeps (launchTargetProcess H rid cfg c).
Proof. unfold launchTargetProcess. cbv zeta. keeps_tac. Qed.

Lemma keeps_waitingNotice : keeps waitingNotice.
Proof. unfold waitingNotice. keeps_tac. Qed.
#[local] Hint Resolve keeps_launch keeps_waitingNotice : keepsdb.

Lemma keeps_listenerSettled H t k rid cfg server o c :
  keeps (listenerSettled H t k rid cfg server o c).
Proof. unfold listenerSettled. keeps_tac. Qed.

Lemma keeps_onRunInTerminalResponse r : keeps (onRunInTerminalResponse r).
Proof. unfold onRunInTerminalResponse. cbv zeta. keeps_tac. Qed.

Lemma keeps_onDebuggeeSocket H sock : keeps (onDebuggeeSocket H sock).
Proof. unfold onDebuggeeSocket, sendJsonMessage. keeps_tac. Qed.

Lemma keeps_onDebuggeeDisconnected : keeps onDebuggeeDisconnected.
Proof. unfold onDebuggeeDisconnected, shutdown. keeps_tac. Qed.

Lemma keeps_initializeRequest b rid : keeps (initializeRequest b rid).
Proof. unfold initializeRequest. keeps_tac. Qed.
#[local] Hint Resolve keeps_stop keeps_stopGraceTimer keeps_stopTeardown keeps_start
  keeps_listenerSettled keeps_onRunInTerminalResponse keeps_onDebuggeeSocket
  keeps_onDebuggeeDisconnected keeps_initializeRequest : keepsdb.

Lemma keeps_commit w rem cs m :
  keeps m -> resp_ok w.(sess) w.(trace) ->
  resp_ok (commit w rem cs m).(sess) (commit w rem cs m).(trace).
Proof.
  intros Hm Hok. unfold commit. destruct (m (sess w)) as [[a s'] e] eqn:E. cbn.
  eapply Hm; [exact E | exact Hok].
Qed.

Lemma keeps_run_task H t inp n m : run_task H t inp n = Some m -> keeps m.
Proof.
  destruct t, inp; cbn; intros E; try discriminate; injection E as <-; eauto with keepsdb.
Qed.

Lemma world_step_resp_ok H w i w' :
  resp_ok w.(sess) w.(trace) -> world_step H w i = Some w' -> resp_ok w'.(sess) w'.(trace).
Proof.
  intros Hok Hs. destruct i; cbv beta iota zeta delta [world_step] in Hs.
  all: try (injection Hs as <-; apply keeps_commit; [keeps_tac | exact Hok]).
  - destruct (nth_error (tasks w) i) as [t|]; [|discriminate].
    destruct (run_task H t inp (next_id w)) as [m|] eqn:Er; [|discriminate].
    injection Hs as <-. apply keeps_commit; [eapply keeps_run_task; eauto | exact Hok].
  - destruct (existsb _ _); [|discriminate].
    injection Hs as <-. apply keeps_commit; [keeps_tac | exact Hok].
Qed.

Lemma reachable_resp_ok H w : reachable H w -> resp_ok w.(sess) w.(trace).
Proof.
  induction 1 as [|w i w' _ IH Hs].
  - split; [cbn; lia|]. intros r. cbn. split; [reflexivity|]. split; [discriminate|lia].
  - eapply world_step_resp_ok; eauto.
Qed.

Local Open Scope string_scope.

(** *** Accepting a debuggee connection *)


(* ------------------------------------------------------------------ *)

(** C3 (session-token staleness guard; code bug): two continuations of a
    superseded launch still change the session.  (1) Launch A in the
    integrated terminal sends [runInTerminal] under token 1; a newer launch B
    moves the token to 2 and clears the launched process ids; the late reply
    to A's request then sets [launchedProcessId] and [launchedShellProcessId]
    although the token is no longer 1.  (2) Launch A's listener settles with
    an 'error' after launch B replaced it: [onError] clears the session's
    listener (B's server) with the token unchanged. *)
Theorem stale_continuations_mutate_session :
  (exists w1 w2 w3,
     run_inputs posix_host initial_world
       [ReqInitialize true; ReqLaunch cfg_terminal; TaskRuns 0 (BindResult Listening)] = Some w1 /\
     w1.(sess).(sessionToken) = 1 /\
     nth_error w1.(tasks) 0 = Some RunInTerminalCallback /\
     world_step posix_host w1 (ReqLaunch cfg_child) = Some w2 /\
     w2.(sess).(sessionToken) = 2 /\
     w2.(sess).(launchedProcessId) = None /\ w2.(sess).(launchedShellProcessId) = None /\
     world_step posix_host w2 (TaskRuns 0 (TerminalReply terminal_reply)) = Some w3 /\
     w3.(sess).(sessionToken) = 2 /\
     w3.(sess).(launchedProcessId) = Some 4242%Z /\
     w3.(sess).(launchedShellProcessId) = Some 4243%Z) /\
  (exists w1 w2,
     run_inputs posix_host initial_world [ReqLaunch cfg_child; ReqLaunch cfg_child] = Some w1 /\
     nth_error w1.(tasks) 0 = Some (AwaitListener 1 KLaunch 1 cfg_child 1) /\
     w1.(sess).(sessionToken) = 2 /\ w1.(sess).(listener) = Some 2 /\
     world_step posix_host w1 (TaskRuns 0 (BindResult (ListenError "EADDRINUSE"))) = Some w2 /\
     w2.(sess).(sessionToken) = 2 /\ w2.(sess).(listener) = None).
Proof.
  split.
  - exists (world_after [ReqInitialize true; ReqLaunch cfg_terminal; TaskRuns 0 (BindResult Listening)]),
      (world_after [ReqInitialize true; ReqLaunch cfg_terminal; TaskRuns 0 (BindResult Listening);
                    ReqLaunch cfg_child]),
      (world_after [ReqInitialize true; ReqLaunch cfg_terminal; TaskRuns 0 (BindResult Listening);
                    ReqLaunch cfg_child; TaskRuns 0 (TerminalReply terminal_reply)]).
    repeat match goal with |- _ /\ _ => split end; vm_compute; reflexivity.
  - exists (world_after [ReqLaunch cfg_child; ReqLaunch cfg_child]),
      (world_after [ReqLaunch cfg_child; ReqLaunch cfg_child;
                    TaskRuns 0 (BindResult (ListenError "EADDRINUSE"))]).
    repeat match goal with |- _ /\ _ => split end; vm_compute; reflexivity.
Qed.

(** C4 (stop before connect yields success): in every reachable state, when
    a start request is pending and has not been answered yet, a disconnect or
    terminate first sends that pending response, for the same request and
    command, with [success = true] and no [message], before any other effect
    of the stop. *)
Theorem stop_answers_pending_start (H : host) (w : world) (rid p : nat) :
  reachable H w ->
  w.(sess).(pendingStartResponse) = Some p ->
  (forall x, In (SendResponse x) w.(trace) -> x.(request_seq) <> p) ->
  exists r rest s',
    stopDebuggingSession H rid w.(sess) = (tt, s', SendResponse r :: rest) /\
    r.(request_seq) = p /\
    r.(command) = (w.(sess).(responses) p).(command) /\
    r.(success) = true /\ r.(message) = None.
Proof.
  intros Hr Hp Hn. destruct (reachable_resp_ok H w Hr) as [_ Hok].
  destruct (Hok p) as (Hq & _ & Hs).
  assert (Hz : response_seqs (sess w) p = 0).
  { destruct (response_seqs (sess w) p) eqn:E; [reflexivity|]. exfalso.
    destruct (Hs ltac:(lia)) as (x & Hin & Hx). exact (Hn x Hin Hx). }
  destruct (stop_pending_first H (sess w) rid p Hp Hz) as (rest & s' & E).
  exists (mark_success (responses (sess w) p)), rest, s'. split; [exact E|].
  cbn. auto.
Qed.

Lemma stop_answers_pending_start_witness :
  exists r rest s',
    stopDebuggingSession posix_host 4 waiting_world.(sess) = (tt, s', SendResponse r :: rest) /\
    r.(request_seq) = 2 /\ r.(command) = "launch" /\ r.(success) = true /\ r.(message) = None.
Proof.
  assert (Hr : reachable posix_host waiting_world).
  { apply (run_inputs_reachable posix_host initial_world
             [ReqInitialize true; ReqLaunch cfg_child; TaskRuns 0 (BindResult Listening)]);
      [constructor | vm_compute; reflexivity]. }
  assert (Hp : waiting_world.(sess).(pendingStartResponse) = Some 2) by (vm_compute; reflexivity).
  assert (Hn : forall x, In (SendResponse x) waiting_world.(trace) -> x.(request_seq) <> 2).
  { vm_compute. intros x Hin.
    repeat match goal with
           | Hh : _ \/ _ |- _ => destruct Hh as [Hh | Hh]; [first [discriminate Hh | injection Hh as <-; cbn; congruence] |]
           end.
    contradiction. }
  destruct (stop_answers_pending_start posix_host waiting_world 4 2 Hr Hp Hn)
    as (r & rest & s' & E & Hq & Hc & Hs & Hm).
  exists r, rest, s'. split; [exact E|]. split; [exact Hq|].
  split; [rewrite Hc; vm_compute; reflexivity|]. split; assumption.
Defined.

(** C5 (stop idempotence): while [stopping] is set, a stop request only
    answers the pending start response (marked successful, then cleared) if
    there is one, and its own request, each of them only if it has not been
    sent before ([sendResponse] refuses a response with a positive [seq]):
    those responses are its only effects, and the session changes only in
    the responses' records, the pending start fields and the library's
    sequence counter. *)
Theorem stop_while_stopping (H : host) (s : session) (rid : nat) :
  s.(stopping) = true ->
  stopDebuggingSession H rid s =
    match s.(pendingStartResponse) with
    | Some p =>
        let s1 := set_responses (upd s.(responses) p (mark_success (s.(responses) p))) s in
        let s2 := if Nat.ltb 0 (s.(response_seqs) p) then s1 else mark_sent p s1 in
        let s3 := set_pendingStartRequest None (set_pendingStartResponse None s2) in
        (tt, (if Nat.ltb 0 (s3.(response_seqs) rid) then s3 else mark_sent rid s3),
         ((if Nat.ltb 0 (s.(response_seqs) p) then []
           else [SendResponse (mark_success (s.(responses) p))]) ++
          (if Nat.ltb 0 (s3.(response_seqs) rid) then []
           else [SendResponse (s1.(responses) rid)]))%list)
    | None =>
        if Nat.ltb 0 (s.(response_seqs) rid) then (tt, s, [])
        else (tt, mark_sent rid s, [SendResponse (s.(responses) rid)])
    end.
Proof.
  intros Hs. destruct s; cbn in Hs; subst.
  unfold stopDebuggingSession, sendResponse, mark_sent, bind, get_state, modify, emit, ret.
  destruct pendingStartResponse0 as [p|]; cbn -[upd];
    repeat (match goal with |- context [if ?b then _ else _] => destruct b end; cbn -[upd]);
    rewrite ?upd_same; reflexivity.
Qed.

Lemma stop_while_stopping_witness :
  stopDebuggingSession posix_host 3 (set_stopping true initial_session) =
    (tt, mark_sent 3 (set_stopping true initial_session), [SendResponse (new_response 3 EmptyString)]).
Proof. apply (stop_while_stopping posix_host (set_stopping true initial_session) 3). reflexivity. Defined.

(** C6 (at most one debuggee connection): with a connection in place, a new
    socket is destroyed and nothing else happens; otherwise the socket is
    accepted, and the session's listener, if any, is closed right after
    [setNoDelay], before any other effect (in particular any response). *)
Theorem one_debuggee_connection (H : host) (s : session) (sock : nat) :
  (forall c, s.(debuggee) = Some c ->
     onDebuggeeSocket H sock s = (tt, s, [SocketDestroy sock])) /\
  (s.(debuggee) = None ->
   exists s' effs,
     onDebuggeeSocket H sock s =
       (tt, s', ([SocketSetNoDelay sock] ++
                 match s.(listener) with Some l => [ListenerClose l] | None => [] end ++
                 effs)%list) /\
     s'.(listener) = None /\ s'.(debuggee) = Some sock).
Proof.
  split.
  - intros c Hc. unfold onDebuggeeSocket. rewrite bind_get, Hc. reflexivity.
  - intros Hc. destruct s; cbn in Hc; subst.
    unfold onDebuggeeSocket, closeListener, sendJsonMessage, sendRawJsonText, sendResponse,
      sendEvent, next_sequence, mark_sent, bind, get_state, modify, emit, ret.
    destruct listener0 as [l|], pendingStartResponse0 as [p|];
      cbn -[utf8 welcome_message N_to_decimal]; try destruct (response_seqs0 p);
      do 2 eexists; (split; [reflexivity|]); cbn; auto.
Qed.

Lemma one_debuggee_connection_witness :
  onDebuggeeSocket posix_host 7 (set_debuggee (Some 5) pending_session) =
    (tt, set_debuggee (Some 5) pending_session, [SocketDestroy 7]) /\
  exists s' effs,
    onDebuggeeSocket posix_host 7 pending_session =
      (tt, s', ([SocketSetNoDelay 7; ListenerClose 2] ++ effs)%list) /\
    s'.(listener) = None /\ s'.(debuggee) = Some 7.
Proof.
  destruct (one_debuggee_connection posix_host (set_debuggee (Some 5) pending_session) 7) as [Hsome _].
  destruct (one_debuggee_connection posix_host pending_session 7) as [_ Hnone].
  split; [exact (Hsome 5 eq_refl)|exact (Hnone eq_refl)].
Defined.




End SessionFacts.

Module AdapterFacts.
Import Framing FramingFacts Session Effects.

Lemma pos_size_bound (p : positive) : (Npos p < 2 ^ N.of_nat (Pos.size_nat p))%N.
Proof.
  induction p as [q IH|q IH|]; cbn [Pos.size_nat].
  - rewrite Nat2N.inj_succ, N.pow_succ_r'. change (Npos q~1) with (2 * Npos q + 1)%N. lia.
  - rewrite Nat2N.inj_succ, N.pow_succ_r'. change (Npos q~0) with (2 * Npos q)%N. lia.
  - cbn. lia.
Qed.

Lemma size_bound (n : N) : (n < 2 ^ N.of_nat (N.size_nat n))%N.
Proof. destruct n as [|p]; [cbn; lia | apply pos_size_bound]. Qed.

Fixpoint dig_str (ds : list N) : string :=
  match ds with
  | [] => EmptyString
  | d :: rest => String (Ascii.ascii_of_N (48 + d)) (dig_str rest)
  end.

Definition dig_value (ds : list N) : N :=
  fold_left (fun acc d => acc * 10 + d)%N ds 0%N.

Lemma dig_str_app ds1 ds2 acc :
  (dig_str (ds1 ++ ds2)%list ++ acc = dig_str ds1 ++ (dig_str ds2 ++ acc))%string.
Proof. induction ds1 as [|d ds IH]; cbn; [reflexivity| now rewrite IH]. Qed.

Lemma n_digits_S (f : nat) (n : N) (acc : string) :
  n_digits (S f) n acc =
    (if (n <? 10)%N then String (Ascii.ascii_of_N (48 + n mod 10)) acc
     else n_digits f (n / 10) (String (Ascii.ascii_of_N (48 + n mod 10)) acc)).
Proof. reflexivity. Qed.

Lemma n_digits_spec (f : nat) : forall (n : N) (acc : string),
  (n < 2 ^ N.of_nat f)%N ->
  exists ds, ds <> [] /\ Forall (fun d => d < 10)%N ds /\
    n_digits (S f) n acc = (dig_str ds ++ acc)%string /\ dig_value ds = n.
Proof.
  induction f as [|f IH]; intros n acc Hn.
  - cbn in Hn. assert (n = 0%N) as -> by lia.
    exists [0%N]. split; [discriminate|]. split; [repeat constructor; lia|]. split; reflexivity.
  - rewrite n_digits_S. destruct (n <? 10)%N eqn:E.
    + apply N.ltb_lt in E. exists [n]. split; [discriminate|]. split; [repeat constructor; lia|].
      split; [|reflexivity]. cbn. rewrite N.mod_small by exact E. reflexivity.
    + apply N.ltb_ge in E.
      destruct (IH (n / 10)%N (String (Ascii.ascii_of_N (48 + n mod 10)) acc)) as (ds & Hne & Hf & Heq & Hv).
      { rewrite Nat2N.inj_succ, N.pow_succ_r' in Hn.
        apply N.Div0.div_lt_upper_bound; lia. }
      exists (ds ++ [(n mod 10)%N]). split; [now destruct ds|].
      split; [apply Forall_app; split; [exact Hf| repeat constructor; apply N.mod_lt; lia]|].
      split.
      * rewrite Heq, dig_str_app. reflexivity.
      * unfold dig_value in *. rewrite fold_left_app, Hv. cbn.
        pose proof (N.div_mod n 10). lia.
Qed.

Lemma str_app_nil (s : string) : (s ++ EmptyString)%string = s.
Proof. induction s as [|a s IH]; cbn; [reflexivity | now rewrite IH]. Qed.

Lemma str_app_assoc (a b c : string) : ((a ++ b) ++ c = a ++ (b ++ c))%string.
Proof. induction a as [|x a IH]; cbn; [reflexivity | now rewrite IH]. Qed.

Lemma N_to_decimal_spec (n : N) :
  exists ds, ds <> [] /\ Forall (fun d => d < 10)%N ds /\
    N_to_decimal n = dig_str ds /\ dig_value ds = n.
Proof.
  destruct (n_digits_spec (N.size_nat n) n EmptyString (size_bound n)) as (ds & A & B & C & D).
  exists ds. unfold N_to_decimal. rewrite C, str_app_nil. auto.
Qed.

Definition digit_byte (d : N) : byte := byte_of (48 + d).

Lemma digit_facts (d : N) : (d < 10)%N ->
  N.of_nat (Ascii.nat_of_ascii (Ascii.ascii_of_N (48 + d))) = (48 + d)%N /\
  Byte.eqb (digit_byte d) x0a = false /\
  Nat.land (Byte.to_nat (digit_byte d)) 127 = 48 + N.to_nat d.
Proof.
  intros Hd. assert (d = 0 \/ d = 1 \/ d = 2 \/ d = 3 \/ d = 4 \/ d = 5 \/ d = 6 \/ d = 7
                     \/ d = 8 \/ d = 9)%N as Hc by lia.
  repeat destruct Hc as [-> | Hc]; [..| subst]; vm_compute; auto.
Qed.

Local Open Scope string_scope.

Lemma utf8_app (a b : string) : utf8 (a ++ b) = (utf8 a ++ utf8 b)%list.
Proof.
  unfold utf8, codes. induction a as [|x a IH]; cbn; [reflexivity|].
  rewrite IH, app_assoc. reflexivity.
Qed.

Lemma utf8_dig_str (ds : list N) : Forall (fun d => d < 10)%N ds ->
  utf8 (dig_str ds) = map digit_byte ds.
Proof.
  induction 1 as [|d ds Hd Hf IH]; [reflexivity|].
  change (dig_str (d :: ds)) with (String (Ascii.ascii_of_N (48 + d)) EmptyString ++ dig_str ds).
  rewrite utf8_app, IH. unfold utf8 at 1, codes. cbn [list_ascii_of_string map flat_map].
  destruct (digit_facts d Hd) as [-> _]. unfold utf8_char.
  replace (48 + d <? 128)%N with true by (symmetry; apply N.ltb_lt; lia). reflexivity.
Qed.

(** The bytes [sendRawJsonText] writes for a body of [n] bytes: the header. *)
Lemma header_bytes (n : N) :
  exists ds, ds <> [] /\ Forall (fun d => d < 10)%N ds /\ dig_value ds = n /\
    utf8 ("#" ++ N_to_decimal n ++ DebuggeeMessages.newline) = (x23 :: map digit_byte ds ++ [x0a])%list.
Proof.
  destruct (N_to_decimal_spec n) as (ds & A & B & C & D).
  exists ds. repeat split; auto. rewrite C.
  rewrite !utf8_app, utf8_dig_str by exact B. reflexivity.
Qed.

Lemma digit_code_facts (d : N) : (d < 10)%N ->
  is_js_space (48 + N.to_nat d) = false /\ is_digit (48 + N.to_nat d) = true.
Proof.
  intros Hd. unfold is_js_space, is_digit. split.
  - apply orb_false_iff. split.
    + apply andb_false_iff. right. apply Nat.leb_gt. lia.
    + apply Nat.eqb_neq. lia.
  - apply andb_true_iff. split; apply Nat.leb_le; lia.
Qed.

Lemma index_digits (ds : list N) (rest : list byte) : Forall (fun d => d < 10)%N ds ->
  index_of_nl (map digit_byte ds ++ x0a :: rest)%list = Some (List.length ds).
Proof.
  induction 1 as [|d ds Hd _ IH]; [reflexivity|].
  cbn [map List.app index_of_nl]. destruct (digit_facts d Hd) as (_ & -> & _).
  rewrite IH. reflexivity.
Qed.

Lemma decode_digits (ds : list N) : Forall (fun d => d < 10)%N ds ->
  ascii_decode (map digit_byte ds) = map (fun d => 48 + N.to_nat d) ds.
Proof.
  induction 1 as [|d ds Hd _ IH]; [reflexivity|].
  cbn [map]. unfold ascii_decode in *. cbn [map]. rewrite IH.
  destruct (digit_facts d Hd) as (_ & _ & ->). reflexivity.
Qed.

Lemma digits_prefix_all (ds : list N) : Forall (fun d => d < 10)%N ds ->
  digits_prefix (map (fun d => 48 + N.to_nat d) ds) = map (fun d => 48 + N.to_nat d) ds.
Proof.
  induction 1 as [|d ds Hd _ IH]; [reflexivity|].
  cbn [map digits_prefix]. destruct (digit_code_facts d Hd) as [_ ->]. rewrite IH. reflexivity.
Qed.

Lemma digits_value_map (ds : list N) : forall a : N, Forall (fun d => d < 10)%N ds ->
  fold_left (fun acc d => acc * 10 + Z.of_nat (d - 48))%Z (map (fun d => 48 + N.to_nat d) ds) (Z.of_N a)
  = Z.of_N (fold_left (fun acc d => acc * 10 + d)%N ds a).
Proof.
  induction ds as [|d ds IH]; intros a Hf; [reflexivity|].
  inversion Hf as [|? ? Hd Hf']; subst. cbn [map fold_left].
  rewrite <- IH by exact Hf'. f_equal.
  replace (48 + N.to_nat d - 48) with (N.to_nat d) by lia. lia.
Qed.

Lemma sign_digit (c : nat) (r : list nat) : 48 <= c ->
  match c :: r with
  | 45 :: rest => (true, rest)
  | 43 :: rest => (false, rest)
  | _ => (false, c :: r)
  end = (false, c :: r).
Proof. intros Hc. do 46 (destruct c as [|c]; [lia|]). reflexivity. Qed.

Lemma parse_digits (ds : list N) :
  ds <> [] -> Forall (fun d => d < 10)%N ds ->
  (Z.of_N (dig_value ds) < js_overflow_bound)%Z ->
  parse_int10 (map (fun d => 48 + N.to_nat d) ds) = JsFin (Z.of_N (dig_value ds)).
Proof.
  intros Hne Hf Hb. destruct ds as [|d rest]; [congruence|].
  inversion Hf as [|? ? Hd Hf']; subst.
  unfold parse_int10.
  cbn [map skip_space]. destruct (digit_code_facts d Hd) as [-> _].
  rewrite sign_digit by lia. cbv beta iota.
  rewrite <- (map_cons (fun d => 48 + N.to_nat d) d rest).
  rewrite digits_prefix_all by exact Hf. cbn [map].
  rewrite <- (map_cons (fun d => 48 + N.to_nat d) d rest).
  unfold digits_value. change 0%Z with (Z.of_N 0).
  rewrite digits_value_map by exact Hf. fold (dig_value (d :: rest)).
  replace (js_overflow_bound <=? Z.of_N (dig_value (d :: rest)))%Z with false
    by (symmetry; apply Z.leb_gt; exact Hb).
  reflexivity.
Qed.

Lemma skipn_prefix {A} (n : nat) (l1 l2 : list A) : n = List.length l1 -> skipn n (l1 ++ l2) = l2.
Proof. intros ->. rewrite skipn_app, skipn_all, Nat.sub_diag. reflexivity. Qed.

Lemma firstn_prefix {A} (n : nat) (l1 l2 : list A) : n = List.length l1 -> firstn n (l1 ++ l2) = l1.
Proof. intros ->. rewrite firstn_app, firstn_all, Nat.sub_diag, app_nil_r. reflexivity. Qed.

Lemma skipn_prefix_add {A} (n : nat) (l1 l2 : list A) :
  skipn (List.length l1 + n) (l1 ++ l2) = skipn n l2.
Proof.
  rewrite skipn_app, skipn_all2 by lia. cbn. f_equal. lia.
Qed.

Definition frame_bytes (t : string) : list byte :=
  (utf8 ("#" ++ N_to_decimal (N.of_nat (List.length (utf8 t))) ++ DebuggeeMessages.newline)
   ++ utf8 t)%list.

Lemma frame_step_frame (t : string) (tail : list byte) :
  (Z.of_nat (List.length (utf8 t)) < js_overflow_bound)%Z ->
  frame_step (frame_bytes t ++ tail)%list = Frame (utf8 t) tail.
Proof.
  intros Hb. unfold frame_bytes.
  destruct (header_bytes (N.of_nat (List.length (utf8 t)))) as (ds & Hne & Hf & Hv & Hh).
  rewrite Hh. set (body := utf8 t) in *.
  replace (((x23 :: map digit_byte ds ++ [x0a]) ++ body) ++ tail)%list
    with (x23 :: (map digit_byte ds ++ x0a :: (body ++ tail)))%list
    by (cbn; rewrite <- !app_assoc; reflexivity).
  unfold frame_step. cbn [index_of_nl]. change (Byte.eqb x23 x0a) with false. cbv beta iota.
  rewrite index_digits by exact Hf. cbn [option_map].
  cbn [firstn]. rewrite firstn_app, length_map, Nat.sub_diag, firstn_all2 by (rewrite length_map; lia).
  cbn [firstn]. rewrite app_nil_r.
  change (ascii_decode (x23 :: map digit_byte ds)) with (35 :: ascii_decode (map digit_byte ds)).
  rewrite decode_digits by exact Hf. cbn [starts_with_hash Nat.eqb negb tl].
  rewrite parse_digits by (auto; rewrite Hv; lia).
  rewrite Hv. replace (Z.of_N (N.of_nat (List.length body)) <? 0)%Z with false by (symmetry; apply Z.ltb_ge; lia).
  replace (Z.to_nat (Z.of_N (N.of_nat (List.length body)))) with (List.length body) by lia.
  replace (x23 :: map digit_byte ds ++ x0a :: body ++ tail)%list
    with ((x23 :: map digit_byte ds ++ [x0a]) ++ (body ++ tail))%list
    by (cbn; rewrite <- app_assoc; reflexivity).
  assert (Hp : List.length (x23 :: map digit_byte ds ++ [x0a])%list = S (S (List.length ds))).
  { cbn [List.length]. rewrite length_app, length_map. cbn. lia. }
  rewrite <- Hp. rewrite length_app, length_app.
  rewrite (proj2 (Nat.ltb_ge _ _)) by lia.
  rewrite skipn_prefix_add, skipn_prefix, skipn_prefix, firstn_prefix by reflexivity.
  reflexivity.
Qed.

Definition fits (t : string) : Prop :=
  (Z.of_nat (List.length (utf8 t)) < js_overflow_bound)%Z.

Lemma frame_bytes_nonempty (t : string) : frame_bytes t <> [].
Proof.
  unfold frame_bytes. destruct (header_bytes (N.of_nat (List.length (utf8 t)))) as (ds & _ & _ & _ & ->).
  discriminate.
Qed.

Lemma drain_frames_prefix (n : nat) : forall (b x : list byte) (ts : list string),
  List.length b = n -> Forall fits ts ->
  (b ++ x)%list = List.concat (map frame_bytes ts) ->
  exists ts1 ts2, ts = (ts1 ++ ts2)%list /\
    fst (drain b) = map (fun t => Message (utf8 t)) ts1 /\
    (snd (drain b) ++ x)%list = List.concat (map frame_bytes ts2).
Proof.
  induction n as [n IH] using lt_wf_ind. intros b x ts Hn Hf Hc.
  destruct (frame_step b) as [| |body rest] eqn:E.
  - exists [], ts. rewrite drain_eq, E. cbn. auto.
  - exfalso. destruct ts as [|t ts'].
    + destruct b; [discriminate | discriminate Hc].
    + inversion Hf; subst. pose proof (frame_step_app_fatal _ x E) as E'.
      cbn [map List.concat] in Hc. rewrite Hc, frame_step_frame in E' by assumption. discriminate.
  - destruct ts as [|t ts'].
    + destruct b; [discriminate | discriminate Hc].
    + inversion Hf as [|? ? Ht Hf']; subst.
      pose proof (frame_step_app_frame _ x _ _ E) as E'.
      cbn [map List.concat] in Hc. rewrite Hc, frame_step_frame in E' by assumption.
      injection E' as Hb Hr.
      destruct (IH (List.length rest) ltac:(pose proof (frame_step_shorter _ _ _ E); lia)
                   rest x ts' eq_refl Hf' (eq_sym Hr)) as (ts1 & ts2 & -> & H1 & H2).
      exists (t :: ts1), ts2. split; [reflexivity|].
      rewrite drain_eq, E. destruct (drain rest) as [evs b'] eqn:D. cbn in *.
      subst body. rewrite H1. auto.
Qed.

Lemma feed_frames (chunks : list (list byte)) : forall (b : list byte) (ts : list string),
  Forall fits ts ->
  frame_step b = NeedMore \/ frame_step b = Fatal ->
  (b ++ List.concat chunks)%list = List.concat (map frame_bytes ts) ->
  feed b chunks = map (fun t => Message (utf8 t)) ts.
Proof.
  unfold feed. induction chunks as [|c cs IH]; intros b ts Hf Hs Hc.
  - cbn in *. rewrite app_nil_r in Hc. destruct ts as [|t ts']; [reflexivity|].
    exfalso. inversion Hf as [|? ? Ht _]; clear Hf. cbn [map List.concat] in Hc. subst b.
    rewrite frame_step_frame in Hs by exact Ht.
    destruct Hs; discriminate.
  - cbn [map run on_socket]. unfold onData.
    destruct (drain_frames_prefix _ (b ++ c) (List.concat cs) ts eq_refl Hf
                ltac:(rewrite <- app_assoc; exact Hc)) as (ts1 & ts2 & -> & H1 & H2).
    pose proof (drain_leftover_stuck (b ++ c)) as Hst.
    destruct (drain (b ++ c)) as [evs b'] eqn:D. cbn in H1, H2, Hst. subst evs.
    apply Forall_app in Hf as [_ Hf2].
    rewrite (IH b' ts2 Hf2 Hst H2), map_app. reflexivity.
Qed.

Lemma for_each_sendRaw (sock : nat) (ts : list string) (s : session) :
  for_each ts (sendRawJsonText sock) s =
    (tt, s, flat_map (fun t =>
       [SocketWrite sock (utf8 ("#" ++ N_to_decimal (N.of_nat (List.length (utf8 t)))
                                    ++ DebuggeeMessages.newline));
        SocketWrite sock (utf8 t)]) ts).
Proof.
  induction ts as [|t ts IH]; [reflexivity|].
  cbn [for_each]. unfold bind at 1. cbn - [for_each]. rewrite IH. reflexivity.
Qed.

Lemma written_frames (sock : nat) (ts : list string) (s : session) :
  written sock (snd (for_each ts (sendRawJsonText sock) s)) = List.concat (map frame_bytes ts).
Proof.
  rewrite for_each_sendRaw. cbn [snd]. induction ts as [|t ts IH]; [reflexivity|].
  cbn [flat_map map List.concat]. unfold written in *. rewrite flat_map_app, IH.
  cbn [flat_map]. rewrite Nat.eqb_refl. unfold frame_bytes. rewrite app_nil_r. reflexivity.
Qed.

(** X1: texts sent one after another with [sendRawJsonText] on one socket are
    read back by [onData], however the bytes are split into chunks, as
    exactly those texts' UTF-8 bodies in order (each body size below the
    bound where [parseInt] overflows). *)
Theorem sent_frames_decode (sock : nat) (ts : list string) (s : session)
    (chunks : list (list byte)) :
  Forall (fun t => Z.of_nat (List.length (utf8 t)) < js_overflow_bound)%Z ts ->
  List.concat chunks = written sock (snd (for_each ts (sendRawJsonText sock) s)) ->
  feed [] chunks = map (fun t => Message (utf8 t)) ts.
Proof.
  intros Hf Hc. apply feed_frames; [exact Hf | left; reflexivity|].
  cbn [List.app]. rewrite Hc. apply written_frames.
Qed.

Lemma sent_frames_decode_witness :
  feed [] [written 1 (snd (for_each ["{}"; "ok"] (sendRawJsonText 1) initial_session))] =
  map (fun t => Message (utf8 t)) ["{}"; "ok"].
Proof.
  apply (sent_frames_decode 1 ["{}"; "ok"] initial_session).
  - repeat constructor.
  - cbn [List.concat]. rewrite app_nil_r. reflexivity.
Defined.

Import Dispatch DebuggeeMessages SessionExamples.

Definition adapter_commands : list string :=
  ["initialize"; "launch"; "attach"; "disconnect"; "terminate"].

Lemma dispatch_forwards H str req server :
  ~ In req.(req_command) adapter_commands ->
  dispatchRequest H str req server = forwardRequestToDebuggee str req.
Proof.
  intros Hn. unfold dispatchRequest.
  repeat match goal with
  | |- context [String.eqb ?a ?b] =>
      let E := fresh in destruct (String.eqb a b) eqn:E;
      [apply String.eqb_eq in E; exfalso; apply Hn; rewrite E; cbn; tauto|]
  end.
  reflexivity.
Qed.

(** X2: a request other than the five the adapter handles, arriving while no
    debuggee is connected, is answered with one failed response with error
    code 999; the session changes only in that request's response record,
    the [seq] the library gives it when sending, and the library's
    sequence counter. *)
Theorem forward_without_debuggee (H : host) (stringify : request -> string)
    (req : request) (server : nat) (s : session) :
  ~ In req.(req_command) adapter_commands ->
  s.(debuggee) = None ->
  let r := mkResponse req.(req_seq) req.(req_command) false
             (Some "Debuggee not connected (waiting on {endpoint}).")
             (Some (999%Z, "Debuggee not connected (waiting on {endpoint}).")) in
  exists store seqs,
    dispatchRequest H stringify req server s =
      (tt, set_sequence (S s.(sequence)) (set_response_seqs seqs (set_responses store s)),
       [SendResponse r]) /\
    store req.(req_seq) = r /\
    (forall n, n <> req.(req_seq) -> store n = s.(responses) n) /\
    seqs req.(req_seq) = s.(sequence) /\
    (forall n, n <> req.(req_seq) -> seqs n = s.(response_seqs) n).
Proof.
  intros Hn Hd r. rewrite dispatch_forwards by exact Hn.
  exists (upd (upd s.(responses) req.(req_seq) (new_response req.(req_seq) req.(req_command)))
             req.(req_seq) r),
    (upd (upd s.(response_seqs) req.(req_seq) 0) req.(req_seq) s.(sequence)).
  split; [|split; [|split; [|split]]].
  - unfold forwardRequestToDebuggee, allocResponse, sendErrorResponse, sendResponse, mark_sent,
      bind, get_state, modify, emit, ret. rewrite Hd.
    cbn. unfold upd. rewrite !Nat.eqb_refl. reflexivity.
  - apply SessionFacts.upd_same.
  - intros n Hne. rewrite !SessionFacts.upd_other by exact Hne. reflexivity.
  - apply SessionFacts.upd_same.
  - intros n Hne. rewrite !SessionFacts.upd_other by exact Hne. reflexivity.
Qed.

Lemma forward_without_debuggee_witness :
  ~ In "threads" adapter_commands /\
  initial_session.(debuggee) = None /\
  let r := mkResponse 7 "threads" false
             (Some "Debuggee not connected (waiting on {endpoint}).")
             (Some (999%Z, "Debuggee not connected (waiting on {endpoint}).")) in
  exists store seqs,
    dispatchRequest posix_host (fun _ => "{}") (mkRequest 7 "threads" JNull) 3 initial_session =
      (tt, set_sequence 2 (set_response_seqs seqs (set_responses store initial_session)),
       [SendResponse r]) /\
    store 7 = r /\ (forall n, n <> 7 -> store n = initial_session.(responses) n) /\
    seqs 7 = 1 /\ (forall n, n <> 7 -> seqs n = initial_session.(response_seqs) n).
Proof.
  assert (Hc : ~ In "threads" adapter_commands)
    by (cbn; intros Hin; repeat destruct Hin as [Hin|Hin]; discriminate || exact Hin).
  split; [exact Hc|]. split; [reflexivity|].
  exact (forward_without_debuggee posix_host (fun _ => "{}") (mkRequest 7 "threads" JNull) 3
           initial_session Hc eq_refl).
Defined.

(** X3: with a debuggee connected, such a request changes no session state
    and only writes to the debuggee's socket, and those bytes decode as exactly
    one message, [JSON.stringify(request)]. *)
Theorem forward_to_debuggee (H : host) (stringify : request -> string)
    (req : request) (server : nat) (s : session) (c : nat) :
  ~ In req.(req_command) adapter_commands ->
  s.(debuggee) = Some c ->
  (Z.of_nat (List.length (utf8 (stringify req))) < js_overflow_bound)%Z ->
  exists effs,
    dispatchRequest H stringify req server s = (tt, s, effs) /\
    (forall e, In e effs -> exists b, e = SocketWrite c b) /\
    (forall chunks, List.concat chunks = written c effs ->
       feed [] chunks = [Message (utf8 (stringify req))]).
Proof.
  intros Hn Hd Hb. rewrite dispatch_forwards by exact Hn.
  unfold forwardRequestToDebuggee, bind at 1, get_state. rewrite Hd.
  destruct (sendRawJsonText c (stringify req) s) as [[u s'] effs] eqn:E.
  unfold sendRawJsonText, bind, emit in E. cbn in E. injection E as <- <- <-.
  eexists. split; [reflexivity|split].
  - intros e [<-|[<-|[]]]; eexists; reflexivity.
  - intros chunks Hc.
    change [Message (utf8 (stringify req))] with (map (fun t => Message (utf8 t)) [stringify req]).
    apply feed_frames; [constructor; [exact Hb|constructor] | left; reflexivity|].
    cbn [List.app]. rewrite Hc. cbn. rewrite Nat.eqb_refl, app_nil_r.
    unfold frame_bytes. rewrite app_nil_r. reflexivity.
Qed.

Lemma forward_to_debuggee_witness :
  ~ In "threads" adapter_commands /\
  (set_debuggee (Some 5) initial_session).(debuggee) = Some 5 /\
  (Z.of_nat (List.length (utf8 "{}")) < js_overflow_bound)%Z /\
  exists effs,
    dispatchRequest posix_host (fun _ => "{}") (mkRequest 7 "threads" JNull) 3
      (set_debuggee (Some 5) initial_session) =
      (tt, set_debuggee (Some 5) initial_session, effs) /\
    (forall e, In e effs -> exists b, e = SocketWrite 5 b) /\
    (forall chunks, List.concat chunks = written 5 effs ->
       feed [] chunks = [Message (utf8 "{}")]).
Proof.
  assert (Hc : ~ In "threads" adapter_commands)
    by (cbn; intros Hin; repeat destruct Hin as [Hin|Hin]; discriminate || exact Hin).
  assert (Hb : (Z.of_nat (List.length (utf8 "{}")) < js_overflow_bound)%Z)
    by (vm_compute; reflexivity).
  split; [exact Hc|]. split; [reflexivity|]. split; [exact Hb|].
  exact (forward_to_debuggee posix_host (fun _ => "{}") (mkRequest 7 "threads" JNull) 3
           (set_debuggee (Some 5) initial_session) 5 Hc eq_refl Hb).
Defined.

Lemma set_add_all_in (pids : list Z) : forall (seen : list Z) (p : Z),
  In p (set_add_all seen pids) <-> In p seen \/ In p pids.
Proof.
  induction pids as [|q rest IH]; intros seen p; cbn [set_add_all In].
  - tauto.
  - rewrite IH. destruct (existsb (Z.eqb q) seen) eqn:E.
    + apply existsb_exists in E as (x & Hx & Hq). apply Z.eqb_eq in Hq. subst x.
      split; [tauto|]. intros [?|[<-|?]]; tauto.
    + rewrite in_app_iff. cbn. tauto.
Qed.

Lemma set_add_all_nodup (pids : list Z) : forall (seen : list Z),
  NoDup seen -> NoDup (set_add_all seen pids).
Proof.
  induction pids as [|q rest IH]; intros seen Hs; cbn [set_add_all]; [exact Hs|].
  apply IH. destruct (existsb (Z.eqb q) seen) eqn:E; [exact Hs|].
  apply NoDup_app; [exact Hs|constructor; [intros []|constructor]|].
  intros x Hx Hq. destruct Hq as [Hq|[]]. subst x.
  assert (existsb (Z.eqb q) seen = true) as E'
    by (apply existsb_exists; exists q; split; [exact Hx|apply Z.eqb_refl]).
  congruence.
Qed.

Lemma for_each_killTree (pids : list Z) (s : session) :
  for_each pids killProcessTreeBestEffort s =
    (tt, s, map KillProcessTree (filter (fun p => (0 <? p)%Z) pids)).
Proof.
  induction pids as [|p rest IH]; [reflexivity|].
  cbn [for_each]. unfold bind at 1. unfold killProcessTreeBestEffort at 1.
  cbn [filter]. destruct (p <=? 0)%Z eqn:E;
    cbv beta iota delta [ret emit]; rewrite IH.
  - replace (0 <? p)%Z with false by lia. reflexivity.
  - replace (0 <? p)%Z with true by lia. reflexivity.
Qed.

Lemma killed_map_kill (l : list Z) : killed (map KillProcessTree l) = l.
Proof. induction l as [|p l IH]; [reflexivity|]. cbn. f_equal. exact IH. Qed.

Lemma killed_childkill (c : nat) (l : list effect) : killed (ChildKill c :: l) = killed l.
Proof. reflexivity. Qed.

(** X4: [killLaunchedProcesses] asks for each process tree at most once; it
    kills exactly the positive pids among the child's pid and, only for an
    external terminal, the terminal's process and shell pids; afterwards no
    launched process is remembered. *)
Theorem killLaunchedProcesses_spec (s : session) :
  let '(_, s', effs) := killLaunchedProcesses s in
  NoDup (killed effs) /\
  (forall p, In p (killed effs) <->
     (0 < p)%Z /\
     ((exists c, s.(launchedChild) = Some c /\ c.(child_pid) = Some p) \/
      (s.(launchedTerminalKind) = Some External /\
       (s.(launchedProcessId) = Some p \/ s.(launchedShellProcessId) = Some p)))) /\
  s'.(launchedChild) = None /\ s'.(launchedProcessId) = None /\
  s'.(launchedShellProcessId) = None /\ s'.(launchedTerminalKind) = None /\
  s'.(launchedExecutableFullPath) = None.
Proof.
  assert (Hin : forall p, In p (set_add_all [] (List.app
         (match launchedChild s with Some c => opt_list (child_pid c) | None => [] end)
         (if is_external (launchedTerminalKind s)
          then List.app (opt_list (launchedProcessId s)) (opt_list (launchedShellProcessId s))
          else []))) <->
     ((exists c, s.(launchedChild) = Some c /\ c.(child_pid) = Some p) \/
      (s.(launchedTerminalKind) = Some External /\
       (s.(launchedProcessId) = Some p \/ s.(launchedShellProcessId) = Some p)))).
  { intros p. rewrite set_add_all_in, in_app_iff.
    destruct (launchedChild s) as [[cid [cp|]]|], (launchedTerminalKind s) as [[|]|],
      (launchedProcessId s), (launchedShellProcessId s); cbn;
      (split;
      [ intros Hx; repeat match goal with Hh : _ \/ _ |- _ => destruct Hh as [Hh|Hh] end;
        try contradiction; subst;
        first [ left; eexists; split; reflexivity
              | right; split; [reflexivity|]; first [left; reflexivity | right; reflexivity] ]
      | intros [(c' & Hc & Hp) | (Hk & [Hp|Hp])];
        repeat (match goal with
                | Hh : Some _ = Some _ |- _ => injection Hh as Hh
                | Hh : None = Some _ |- _ => discriminate Hh
                | Hh : Some Integrated = Some External |- _ => discriminate Hh
                | Hh : None = Some External |- _ => discriminate Hh
                | Hh : Integrated = External |- _ => discriminate Hh
                end || (progress subst) || (progress cbn in * ));
        intuition ]). }
  unfold killLaunchedProcesses. cbv zeta.
  unfold bind, get_state, emit, modify, ret. cbv beta iota.
  destruct (launchedChild s) as [c|] eqn:Ec; cbv beta iota;
    rewrite for_each_killTree; cbv beta iota; cbn [List.app] in *;
    rewrite ?app_nil_r, ?killed_childkill, killed_map_kill;
    match goal with |- context [filter _ (set_add_all [] ?l)] =>
      pose proof (set_add_all_nodup l [] (NoDup_nil _)) as Hnd;
      generalize dependent (set_add_all [] l) end;
    intros pids Hin Hnd;
    (split; [apply NoDup_filter, Hnd|]);
    (split; [intros p; rewrite filter_In, Z.ltb_lt, Hin; tauto|]);
    repeat split; exact Ec.
Qed.




(** X5: [resolveExecutable] only returns a path that exists, and that path
    is the executable itself, its resolution against [cwd] (for a relative
    name), or a PATH directory joined with the name and one of the
    extensions (only the empty extension off Windows). *)
Theorem resolveExecutable_sound (H : host) (exe cwd p : string) :
  resolveExecutable H exe cwd = Some p ->
  fs_existsSync H p = true /\
  (p = exe \/
   (path_isAbsolute H exe = false /\ p = path_resolve H cwd exe) \/
   (exists dir ext,
      In dir (nonempty_strings (split_on (path_delimiter H)
                (match env_PATH H with Some v => v | None => EmptyString end))) /\
      (is_win32 H = false -> ext = EmptyString) /\
      p = path_join H dir (exe ++ ext))).
Proof.
  unfold resolveExecutable. cbv zeta. intros Hf.
  destruct (find_some _ _ Hf) as [Hin Hex]. split; [exact Hex|].
  apply in_app_iff in Hin as [Hin|Hin].
  - destruct (path_isAbsolute H exe) eqn:Ea; cbn in Hin.
    + left. destruct Hin as [<-|[]]. reflexivity.
    + destruct Hin as [<-|[<-|[]]]; [right; left; split; reflexivity | left; reflexivity].
  - right; right. apply in_flat_map in Hin as (dir & Hdir & Hin).
    apply in_map_iff in Hin as (ext & <- & Hext).
    exists dir, ext. split; [exact Hdir|]. split; [|reflexivity].
    intros Hw. rewrite Hw in Hext. destruct Hext as [<-|[]]. reflexivity.
Qed.

Lemma resolveExecutable_sound_witness :
  resolveExecutable posix_host "sis" "/game" = Some "/game/sis" /\
  fs_existsSync posix_host "/game/sis" = true /\
  ("/game/sis" = "sis" \/
   (path_isAbsolute posix_host "sis" = false /\ "/game/sis" = path_resolve posix_host "/game" "sis") \/
   (exists dir ext,
      In dir (nonempty_strings (split_on (path_delimiter posix_host)
                (match env_PATH posix_host with Some v => v | None => EmptyString end))) /\
      (is_win32 posix_host = false -> ext = EmptyString) /\
      "/game/sis" = path_join posix_host dir ("sis" ++ ext))).
Proof.
  assert (E : resolveExecutable posix_host "sis" "/game" = Some "/game/sis")
    by (vm_compute; reflexivity).
  split; [exact E|]. exact (resolveExecutable_sound posix_host "sis" "/game" "/game/sis" E).
Defined.

(** X6: an existing absolute executable is used as given; for a relative
    name the path resolved against [cwd] wins over the bare name, which
    wins over any PATH entry. *)
Theorem resolveExecutable_local_first (H : host) (exe cwd : string) :
  (path_isAbsolute H exe = true -> fs_existsSync H exe = true ->
     resolveExecutable H exe cwd = Some exe) /\
  (path_isAbsolute H exe = false -> fs_existsSync H (path_resolve H cwd exe) = true ->
     resolveExecutable H exe cwd = Some (path_resolve H cwd exe)) /\
  (path_isAbsolute H exe = false -> fs_existsSync H (path_resolve H cwd exe) = false ->
     fs_existsSync H exe = true -> resolveExecutable H exe cwd = Some exe).
Proof.
  unfold resolveExecutable. cbv zeta.
  split; [|split]; intros Ha; rewrite Ha; cbn [List.app find].
  - intros Hx. rewrite Hx. reflexivity.
  - intros Hx. rewrite Hx. reflexivity.
  - intros Hx Hy. rewrite Hx, Hy. reflexivity.
Qed.

Import DebuggeeMessages.
Local Open Scope string_scope.

Lemma readBasicConfiguration_facts (H : host) (cfg : json) (s : session) :
  let '(ok, s', effs) := readBasicConfiguration H cfg s in
  effs = [] /\ (ok = false -> s' = s) /\
  (ok = true ->
     (0 < s'.(listenPort))%Z /\
     (s'.(listenHost) = "0.0.0.0" \/ s'.(listenHost) = "127.0.0.1") /\
     s'.(workingDirectory) <> EmptyString /\
     fs_isDirectory H s'.(workingDirectory) = true).
Proof.
  unfold readBasicConfiguration. cbv zeta.
  destruct (String.eqb _ EmptyString) eqn:E1.
  { cbn. repeat split; intros; discriminate || reflexivity. }
  destruct (fs_isDirectory H _) eqn:E2; cbn [negb].
  2:{ cbn. repeat split; intros; discriminate || reflexivity. }
  unfold bind, modify, ret. cbn. split; [reflexivity|]. split; [discriminate|]. intros _.
  split; [|split; [|split]].
  - destruct (parseInt10 _) as [|p|]; [lia| |lia]. destruct (0 <? p)%Z eqn:Ep; [apply Z.ltb_lt in Ep; exact Ep|lia].
  - destruct (js_truthy _); [left|right]; reflexivity.
  - intros Hc. rewrite Hc in E1. discriminate.
  - exact E2.
Qed.

(** X7: [readBasicConfiguration] emits no effect; when it fails the session is
    unchanged; when it succeeds the listen port is positive, the listen
    host is ["0.0.0.0"] or ["127.0.0.1"], and the working directory is a
    non-empty path to an existing directory. *)
Theorem readBasicConfiguration_outcome (H : host) (cfg : json) (s : session) :
  let '(ok, s', effs) := readBasicConfiguration H cfg s in
  effs = [] /\ (ok = false -> s' = s) /\
  (ok = true ->
     (0 < s'.(listenPort))%Z /\
     (s'.(listenHost) = "0.0.0.0" \/ s'.(listenHost) = "127.0.0.1") /\
     s'.(workingDirectory) <> EmptyString /\
     fs_isDirectory H s'.(workingDirectory) = true).
Proof. apply readBasicConfiguration_facts. Qed.

(** ** Where the listener listens *)

Definition listen_ok (e : effect) : Prop :=
  match e with
  | ListenerListen _ port host => (0 < port)%Z /\ (host = "0.0.0.0" \/ host = "127.0.0.1")
  | _ => True
  end.

(** [emits_all P m]: every effect [m] has is in [P]. *)
Definition emits_all (P : effect -> Prop) {A} (m : M A) : Prop :=
  forall s a s' e, m s = (a, s', e) -> Forall P e.

Section EmitsAll.

Variable P : effect -> Prop.

Lemma emits_all_ret {A} (a : A) : emits_all P (ret a).
Proof. intros s b s' e E. injection E as _ _ <-. constructor. Qed.

Lemma emits_all_get : emits_all P get_state.
Proof. intros s b s' e E. injection E as _ _ <-. constructor. Qed.

Lemma emits_all_modify f : emits_all P (modify f).
Proof. intros s b s' e E. injection E as _ _ <-. constructor. Qed.

Lemma emits_all_emit e0 : P e0 -> emits_all P (emit e0).
Proof. intros Hl s b s' e E. injection E as _ _ <-. constructor; [exact Hl|constructor]. Qed.

Lemma emits_all_bind {A B} (m : M A) (k : A -> M B) :
  emits_all P m -> (forall a, emits_all P (k a)) -> emits_all P (bind m k).
Proof.
  intros Hm Hk s b s' e E. unfold bind in E.
  destruct (m s) as [[a s1] e1] eqn:E1. destruct (k a s1) as [[b' s2] e2] eqn:E2.
  injection E as _ _ <-. apply Forall_app. split; [eapply Hm; eauto | eapply Hk; eauto].
Qed.

Lemma emits_all_for_each {A} (l : list A) f :
  (forall x, emits_all P (f x)) -> emits_all P (for_each l f).
Proof.
  intros Hf. induction l as [|x l IH]; cbn; [apply emits_all_ret|].
  apply emits_all_bind; [apply Hf | intros; exact IH].
Qed.

Lemma emits_all_commit w rem cs (m : M unit) :
  Forall P w.(trace) -> emits_all P m -> Forall P (commit w rem cs m).(trace).
Proof.
  intros Ht Hm. unfold commit. destruct (m (sess w)) as [[a s'] e] eqn:E. cbn.
  apply Forall_app. split; [exact Ht | eapply Hm; eauto].
Qed.

End EmitsAll.

Lemma emits_all_config_listen H cfg server (X Y : M unit) :
  emits_all listen_ok X -> emits_all listen_ok Y ->
  emits_all listen_ok (ok <- readBasicConfiguration H cfg ;;
                       if negb ok then X else openListener server ;; Y).
Proof.
  intros HX HY s b s' e E. unfold bind at 1 in E.
  pose proof (readBasicConfiguration_facts H cfg s) as Hr.
  destruct (readBasicConfiguration H cfg s) as [[ok s1] e1].
  destruct Hr as (-> & _ & Hok). destruct ok; cbn [negb] in E.
  - destruct (Hok eq_refl) as (Hp & Hh & _).
    unfold openListener, bind, modify, get_state, emit in E. cbn in E.
    destruct (Y _) as [[u s2] e2] eqn:EY. injection E as _ _ <-. cbn.
    constructor; [split; [exact Hp | exact Hh]|]. eapply HY; eauto.
  - destruct (X s1) as [[u s2] e2] eqn:EX. injection E as _ _ <-. eapply HX; eauto.
Qed.

Create HintDb emitsdb.
#[local] Hint Resolve emits_all_ret emits_all_get emits_all_modify : emitsdb.

Ltac emits_tac :=
  repeat match goal with
  | |- emits_all listen_ok (bind (readBasicConfiguration _ _) _) =>
      apply emits_all_config_listen
  | |- emits_all _ (bind _ _) => apply emits_all_bind; [ | intro ]
  | |- emits_all _ (for_each _ _) => apply emits_all_for_each; intro
  | |- emits_all _ (emit _) => apply emits_all_emit; exact I
  | |- emits_all _ (if ?b then _ else _) => destruct b
  | |- emits_all _ (match ?x with _ => _ end) => destruct x
  | |- emits_all _ _ => solve [eauto with emitsdb]
  end.

Ltac emits_unfold :=
  unfold allocResponse, initializeRequest,
    stopDebuggingSession, stopGraceTimer, stopTeardown, startDebuggingSession,
    listenerSettled, launchTargetProcess, waitingNotice, onRunInTerminalResponse,
    onDebuggeeSocket, onDebuggeeDisconnected, killLaunchedProcesses,
    killProcessTreeBestEffort, killImageTreeBestEffort, killProcessDescendantsBestEffort,
    requestDebuggeeExitBestEffort, closeListener, closeDebuggee, sendJsonMessage,
    sendRawJsonText, shutdown, sendErrorResponse, sendResponse, sendEvent, next_sequence;
  cbv zeta.

Lemma listen_ok_run_task H t inp n m : run_task H t inp n = Some m -> emits_all listen_ok m.
Proof.
  destruct t, inp; cbn; intros E; try discriminate; injection E as <-;
    emits_unfold; emits_tac.
Qed.

(** X8: in every reachable state, each [server.listen(port, host)] the
    adapter has issued used a positive port and the host ["0.0.0.0"] or
    ["127.0.0.1"]. *)
Theorem listen_endpoints_valid (H : host) (w : world) :
  reachable H w ->
  forall server port host, In (ListenerListen server port host) w.(trace) ->
    (0 < port)%Z /\ (host = "0.0.0.0" \/ host = "127.0.0.1").
Proof.
  intros Hr. assert (Hall : Forall listen_ok w.(trace)).
  { induction Hr as [|w i w' _ IH Hs]; [constructor|].
    destruct i; cbv beta iota zeta delta [world_step] in Hs.
    all: try (injection Hs as <-; apply emits_all_commit; [exact IH|];
              emits_unfold; emits_tac; fail).
    - destruct (nth_error (tasks w) i) as [t|]; [|discriminate].
      destruct (run_task H t inp (next_id w)) as [m|] eqn:Er; [|discriminate].
      injection Hs as <-. apply emits_all_commit; [exact IH|].
      eapply listen_ok_run_task; eauto.
    - destruct (existsb _ _); [|discriminate].
      injection Hs as <-. apply emits_all_commit; [exact IH|]. emits_unfold. emits_tac. }
  intros server port host Hin. rewrite Forall_forall in Hall. exact (Hall _ Hin).
Qed.

Lemma listen_endpoints_valid_witness :
  reachable posix_host waiting_world /\
  forall server port host, In (ListenerListen server port host) waiting_world.(trace) ->
    (0 < port)%Z /\ (host = "0.0.0.0" \/ host = "127.0.0.1").
Proof.
  assert (Hr : reachable posix_host waiting_world).
  { apply (SessionFacts.run_inputs_reachable posix_host initial_world
             [ReqInitialize true; ReqLaunch cfg_child; TaskRuns 0 (BindResult Listening)]);
      [constructor | vm_compute; reflexivity]. }
  split; [exact Hr|]. exact (listen_endpoints_valid posix_host waiting_world Hr).
Defined.

(** ** What the adapter never does off Windows *)

Definition no_win32_kill (e : effect) : Prop :=
  match e with
  | KillImageTree _ | KillProcessDescendants _ => False
  | _ => True
  end.

Ltac emits_off_win32 Hw :=
  emits_unfold; unfold readBasicConfiguration, openListener; cbv zeta;
  rewrite ?Hw; cbn [negb]; emits_tac.

Lemma no_win32_kill_run_task H t inp n m :
  is_win32 H = false -> run_task H t inp n = Some m -> emits_all no_win32_kill m.
Proof.
  intros Hw. destruct t, inp; cbn; intros E; try discriminate; injection E as <-;
    emits_off_win32 Hw.
Qed.

(** X9: off Windows, the adapter never kills processes by image name and
    never kills a shell's descendants ([taskkill /IM] and the descendant
    kill are only issued on Windows). *)
Theorem no_image_kills_off_win32 (H : host) (w : world) :
  is_win32 H = false -> reachable H w ->
  forall x, ~ In (KillImageTree x) w.(trace) /\ forall pid, ~ In (KillProcessDescendants pid) w.(trace).
Proof.
  intros Hw Hr. assert (Hall : Forall no_win32_kill w.(trace)).
  { induction Hr as [|w i w' _ IH Hs]; [constructor|].
    destruct i; cbv beta iota zeta delta [world_step] in Hs.
    all: try (injection Hs as <-; apply emits_all_commit; [exact IH|];
              emits_off_win32 Hw; fail).
    - destruct (nth_error (tasks w) i) as [t|]; [|discriminate].
      destruct (run_task H t inp (next_id w)) as [m|] eqn:Er; [|discriminate].
      injection Hs as <-. apply emits_all_commit; [exact IH|].
      eapply no_win32_kill_run_task; eauto.
    - destruct (existsb _ _); [|discriminate].
      injection Hs as <-. apply emits_all_commit; [exact IH|]. emits_off_win32 Hw. }
  rewrite Forall_forall in Hall. intros x. split.
  - intros Hin. exact (Hall _ Hin).
  - intros pid Hin. exact (Hall _ Hin).
Qed.

Lemma no_image_kills_off_win32_witness :
  is_win32 posix_host = false /\ reachable posix_host waiting_world /\
  forall x, ~ In (KillImageTree x) waiting_world.(trace) /\
    forall pid, ~ In (KillProcessDescendants pid) waiting_world.(trace).
Proof.
  assert (Hr : reachable posix_host waiting_world).
  { apply (SessionFacts.run_inputs_reachable posix_host initial_world
             [ReqInitialize true; ReqLaunch cfg_child; TaskRuns 0 (BindResult Listening)]);
      [constructor | vm_compute; reflexivity]. }
  split; [reflexivity|]. split; [exact Hr|].
  exact (no_image_kills_off_win32 posix_host waiting_world eq_refl Hr).
Defined.

(** ** The listener and the debuggee connection exclude each other *)

Definition conn_inv (s : session) : Prop := s.(debuggee) = None \/ s.(listener) = None.

Definition keeps_conn {A} (m : M A) : Prop :=
  forall s a s' e, m s = (a, s', e) -> conn_inv s -> conn_inv s'.

Lemma keeps_conn_ret {A} (a : A) : keeps_conn (ret a).
Proof. intros s b s' e E Hs. injection E as _ <- _. exact Hs. Qed.

Lemma keeps_conn_get : keeps_conn get_state.
Proof. intros s b s' e E Hs. injection E as _ <- _. exact Hs. Qed.

Lemma keeps_conn_emit e0 : keeps_conn (emit e0).
Proof. intros s b s' e E Hs. injection E as _ <- _. exact Hs. Qed.

Lemma keeps_conn_modify f : (forall s, conn_inv s -> conn_inv (f s)) -> keeps_conn (modify f).
Proof. intros Hf s b s' e E Hs. injection E as _ <- _. apply Hf, Hs. Qed.

Lemma keeps_conn_bind {A B} (m : M A) (k : A -> M B) :
  keeps_conn m -> (forall a, keeps_conn (k a)) -> keeps_conn (bind m k).
Proof.
  intros Hm Hk s b s' e E Hs. unfold bind in E.
  destruct (m s) as [[a s1] e1] eqn:E1. destruct (k a s1) as [[b' s2] e2] eqn:E2.
  injection E as _ <- _. eapply Hk; [exact E2|]. eapply Hm; eauto.
Qed.

Lemma keeps_conn_for_each {A} (l : list A) f :
  (forall x, keeps_conn (f x)) -> keeps_conn (for_each l f).
Proof.
  intros Hf. induction l as [|x l IH]; cbn; [apply keeps_conn_ret|].
  apply keeps_conn_bind; [apply Hf | intros; exact IH].
Qed.

Lemma closeDebuggee_none s a s' e :
  closeDebuggee s = (a, s', e) -> s'.(debuggee) = None /\ s'.(listener) = s.(listener).
Proof.
  unfold closeDebuggee, bind, get_state, emit, modify, ret.
  destruct (debuggee s) eqn:Ed; cbn; intros E; injection E as _ <- _; cbn; auto.
Qed.

Lemma closeListener_none s a s' e :
  closeListener s = (a, s', e) -> s'.(listener) = None /\ s'.(debuggee) = s.(debuggee).
Proof.
  unfold closeListener, bind, get_state, emit, modify, ret.
  destruct (listener s) eqn:Ed; cbn; intros E; injection E as _ <- _; cbn; auto.
Qed.

Lemma readBasicConfiguration_debuggee H cfg s ok s' e :
  readBasicConfiguration H cfg s = (ok, s', e) -> s'.(debuggee) = s.(debuggee).
Proof.
  unfold readBasicConfiguration, bind, modify, ret. cbv zeta.
  destruct (String.eqb _ EmptyString); [cbn; intros E; injection E as _ <- _; reflexivity|].
  destruct (negb (fs_isDirectory H _)); cbn; intros E; injection E as _ <- _; reflexivity.
Qed.

Lemma keeps_conn_closeListener : keeps_conn closeListener.
Proof.
  intros s a s' e E _. right. exact (proj1 (closeListener_none _ _ _ _ E)).
Qed.

Lemma keeps_conn_closeDebuggee : keeps_conn closeDebuggee.
Proof.
  intros s a s' e E _. left. exact (proj1 (closeDebuggee_none _ _ _ _ E)).
Qed.

(** [startDebuggingSession] closes the debuggee before it listens. *)
Lemma keeps_conn_start H cfg server (X Y : M unit) :
  keeps_conn X -> keeps_conn Y ->
  keeps_conn (closeDebuggee ;;
              ok <- readBasicConfiguration H cfg ;;
              if negb ok then X else openListener server ;; Y).
Proof.
  intros HX HY s b s' e E _. unfold bind at 1 in E.
  destruct (closeDebuggee s) as [[u s1] e1] eqn:E1.
  destruct (closeDebuggee_none _ _ _ _ E1) as [Hd1 _].
  unfold bind at 1 in E.
  destruct (readBasicConfiguration H cfg s1) as [[ok s2] e2] eqn:E2.
  pose proof (readBasicConfiguration_debuggee _ _ _ _ _ _ E2) as Hd2.
  destruct ok; cbn [negb] in E.
  - unfold openListener, bind, modify, get_state, emit in E. cbn in E.
    destruct (Y _) as [[v s3] e3] eqn:EY. injection E as _ <- _.
    eapply HY; [exact EY|]. left. cbn. congruence.
  - destruct (X s2) as [[v s3] e3] eqn:EX. injection E as _ <- _.
    eapply HX; [exact EX|]. left. congruence.
Qed.

(** [onDebuggeeSocket] closes the listener before it keeps the socket. *)
Lemma keeps_conn_accept sock (K : M unit) :
  keeps_conn K -> keeps_conn (closeListener ;; modify (set_debuggee (Some sock)) ;; K).
Proof.
  intros HK s b s' e E _. unfold bind at 1 in E.
  destruct (closeListener s) as [[u s1] e1] eqn:E1.
  destruct (closeListener_none _ _ _ _ E1) as [Hl1 _].
  unfold bind, modify in E. cbn in E.
  destruct (K _) as [[v s3] e3] eqn:EK. injection E as _ <- _.
  eapply HK; [exact EK|]. right. cbn. exact Hl1.
Qed.

Create HintDb conndb.
#[local] Hint Resolve keeps_conn_ret keeps_conn_get keeps_conn_emit
  keeps_conn_closeListener keeps_conn_closeDebuggee : conndb.

Ltac conn_tac :=
  repeat match goal with
  | |- keeps_conn (bind closeDebuggee (fun _ => bind (readBasicConfiguration _ _) _)) =>
      apply keeps_conn_start
  | |- keeps_conn (bind closeListener (fun _ => bind (modify (set_debuggee (Some _))) _)) =>
      apply keeps_conn_accept
  | |- keeps_conn (bind _ _) => apply keeps_conn_bind; [ | intro ]
  | |- keeps_conn (for_each _ _) => apply keeps_conn_for_each; intro
  | |- keeps_conn (modify _) =>
      apply keeps_conn_modify; let Hm := fresh "Hm" in intros ? Hm; cbn;
      first [exact Hm | left; reflexivity | right; reflexivity]
  | |- keeps_conn (if ?b then _ else _) => destruct b
  | |- keeps_conn (match ?x with _ => _ end) => destruct x
  | |- keeps_conn _ => solve [eauto with conndb]
  end.

Ltac conn_unfold :=
  unfold allocResponse, initializeRequest,
    stopDebuggingSession, stopGraceTimer, stopTeardown, startDebuggingSession,
    listenerSettled, launchTargetProcess, waitingNotice, onRunInTerminalResponse,
    onDebuggeeSocket, onDebuggeeDisconnected, killLaunchedProcesses,
    killProcessTreeBestEffort, killImageTreeBestEffort, killProcessDescendantsBestEffort,
    requestDebuggeeExitBestEffort, sendJsonMessage,
    sendRawJsonText, shutdown, sendErrorResponse, sendResponse, sendEvent, next_sequence;
  cbv zeta.

Lemma keeps_conn_run_task H t inp n m : run_task H t inp n = Some m -> keeps_conn m.
Proof.
  destruct t, inp; cbn; intros E; try discriminate; injection E as <-; conn_unfold; conn_tac.
Qed.

(** X10: in every reachable state the adapter does not both hold a listener
    and a debuggee connection: accepting a debuggee closes the listener, and
    a new start closes the debuggee before it listens again. *)
Theorem listener_excludes_debuggee (H : host) (w : world) :
  reachable H w -> w.(sess).(debuggee) = None \/ w.(sess).(listener) = None.
Proof.
  intros Hr. induction Hr as [|w i w' _ IH Hs]; [left; reflexivity|].
  assert (Hc : forall rem cs (m : M unit), keeps_conn m -> conn_inv (commit w rem cs m).(sess)).
  { intros rem cs m Hm. unfold commit. destruct (m (sess w)) as [[a s'] e] eqn:E. cbn.
    eapply Hm; [exact E | exact IH]. }
  change (conn_inv (sess w')). destruct i; cbv beta iota zeta delta [world_step] in Hs.
  all: try (injection Hs as <-; apply Hc; conn_unfold; conn_tac; fail).
  - destruct (nth_error (tasks w) i) as [t|]; [|discriminate].
    destruct (run_task H t inp (next_id w)) as [m|] eqn:Er; [|discriminate].
    injection Hs as <-. apply Hc. eapply keeps_conn_run_task; eauto.
  - destruct (existsb _ _); [|discriminate].
    injection Hs as <-. apply Hc. conn_unfold. conn_tac.
Qed.

Lemma listener_excludes_debuggee_witness :
  let w := world_after [ReqInitialize true; ReqLaunch cfg_child;
                        TaskRuns 0 (BindResult Listening); DebuggeeConnects] in
  reachable posix_host w /\ (w.(sess).(debuggee) = None \/ w.(sess).(listener) = None).
Proof.
  cbv zeta.
  assert (Hr : reachable posix_host
                 (world_after [ReqInitialize true; ReqLaunch cfg_child;
                               TaskRuns 0 (BindResult Listening); DebuggeeConnects])).
  { apply (SessionFacts.run_inputs_reachable posix_host initial_world
             [ReqInitialize true; ReqLaunch cfg_child; TaskRuns 0 (BindResult Listening);
              DebuggeeConnects]); [constructor | vm_compute; reflexivity]. }
  split; [exact Hr|]. exact (listener_excludes_debuggee posix_host _ Hr).
Defined.

(** ** Launching the target *)

Ltac launch_fail_tac :=
  unfold sendErrorResponse, sendResponse, mark_sent, bind, get_state, modify, emit, ret; cbn;
  match goal with |- context [response_seqs ?s ?rid] => destruct (response_seqs s rid) end;
  cbn; (split; [|discriminate]); intros _; eexists;
  (split; [reflexivity|]); (split; [reflexivity|]);
  unfold upd; rewrite Nat.eqb_refl; auto.

(** X11: when [launchTargetProcess] fails, it records a failed response for
    the request, its only effect is sending it (unless a response to the
    request was sent before), and no process is recorded as launched; when it succeeds, the
    executable it resolved (which exists) is recorded, no response is sent,
    and it either spawned exactly that executable with the configured
    arguments in the working directory, or asked the client to run it in a
    terminal (which the client supports) followed by the reply's callback;
    the [cmd.exe /c] prefix only occurs for the integrated terminal on
    Windows. *)
Theorem launchTargetProcess_outcome (H : host) (rid : nat) (cfg : json) (c : child)
    (s : session) :
  let '(ok, s', effs) := launchTargetProcess H rid cfg c s in
  (ok = false ->
     exists r,
       s'.(responses) rid = r /\
       effs = (if Nat.ltb 0 (s.(response_seqs) rid) then [] else [SendResponse r]) /\
       r.(success) = false /\
       s'.(launchedChild) = s.(launchedChild) /\
       s'.(launchedTerminalKind) = s.(launchedTerminalKind)) /\
  (ok = true ->
     exists exe,
       resolveExecutable H (runtimeExecutableOf cfg) s.(workingDirectory) = Some exe /\
       fs_existsSync H exe = true /\
       s'.(launchedExecutableFullPath) = Some exe /\
       ((effs = [SpawnChild c.(child_id) exe (argListOf cfg) s.(workingDirectory)] /\
         s'.(launchedChild) = Some c) \/
        (exists tk targs,
           effs = [RunInTerminalRequest tk s.(workingDirectory) targs;
                   ScheduleTask RunInTerminalCallback] /\
           s.(clientSupportsRunInTerminalRequest) = true /\
           s'.(launchedTerminalKind) = Some tk /\
           (targs = exe :: argListOf cfg \/
            (is_win32 H = true /\ tk = Integrated /\
             targs = "cmd.exe" :: "/c" :: exe :: argListOf cfg))))).
Proof.
  unfold launchTargetProcess. cbv zeta.
  destruct (String.eqb (runtimeExecutableOf cfg) EmptyString).
  { launch_fail_tac. }
  unfold bind at 1, get_state at 1. cbv beta iota.
  destruct (resolveExecutable H (runtimeExecutableOf cfg) (workingDirectory s)) as [exe|] eqn:Er.
  2:{ cbn. launch_fail_tac. }
  assert (Hex : fs_existsSync H exe = true)
    by (unfold resolveExecutable in Er; cbv zeta in Er; exact (proj2 (find_some _ _ Er))).
  destruct (terminal_of (consolePrefOf cfg)) as [tk|] eqn:Et.
  - cbn -[shouldWrapRunInTerminalWithCmd argListOf].
    destruct (clientSupportsRunInTerminalRequest s) eqn:Ec.
    + cbn -[shouldWrapRunInTerminalWithCmd argListOf]. split; [discriminate|]. intros _. exists exe.
      split; [reflexivity|]. split; [exact Hex|]. split; [reflexivity|].
      right. eexists tk, _. split; [reflexivity|]. split; [reflexivity|]. split; [reflexivity|].
      destruct (is_integrated tk && shouldWrapRunInTerminalWithCmd H exe) eqn:Ew;
        [right|left; reflexivity].
      apply andb_true_iff in Ew as [Ei Ew]. unfold shouldWrapRunInTerminalWithCmd in Ew.
      destruct (is_win32 H); [|discriminate].
      split; [reflexivity|]. split; [destruct tk; [reflexivity|discriminate]|reflexivity].
    + cbn. launch_fail_tac.
  - cbn. split; [discriminate|]. intros _. exists exe.
    split; [reflexivity|]. split; [exact Hex|]. split; [reflexivity|].
    left. split; reflexivity.
Qed.

(** ** Stopping, then the debuggee going away *)

(** X12: once a stop request has been handled, the debuggee's socket closing
    only clears the debuggee connection and shuts the adapter down; over the
    two, the IDE is sent exactly one [Terminated] event if the session was
    not already stopping, and none if it was. *)
Theorem stop_then_disconnect (H : host) (rid : nat) (s : session) :
  let '(_, s1, e1) := stopDebuggingSession H rid s in
  let '(_, s2, e2) := onDebuggeeDisconnected s1 in
  e2 = [Shutdown] /\ s2 = set_debuggee None s1 /\
  terminated_count (e1 ++ e2) = if s.(stopping) then 0 else 1.
Proof.
  unfold stopDebuggingSession, onDebuggeeDisconnected, requestDebuggeeExitBestEffort,
    killImageTreeBestEffort, sendResponse, sendRawJsonText, shutdown,
    bind, get_state, modify, emit, ret.
  cbv zeta.
  repeat (cbn -[utf8 json_object N_to_decimal]; match goal with
    | |- context [if ?b then _ else _] => let E := fresh "E" in destruct b eqn:E
    | |- context [match ?x with Some _ => _ | None => _ end] =>
        let E := fresh "E" in destruct x eqn:E
    end).
  all: try (exfalso; congruence).
  all: repeat split.
Qed.


(** ** A failed launch, then a stop *)






(** ** The environment overlay *)

Import EnvMap.

Lemma env_lookup_assign (out : list (string * string)) (k v q : string) :
  env_lookup (assign out k v) q = if String.eqb k q then Some v else env_lookup out q.
Proof.
  induction out as [|[k' v'] rest IH]; cbn; [reflexivity|].
  destruct (String.eqb k' k) eqn:E1.
  - apply String.eqb_eq in E1. subst k'. cbn. destruct (String.eqb k q); reflexivity.
  - cbn. rewrite IH. destruct (String.eqb k' q) eqn:E2, (String.eqb k q) eqn:E3; try reflexivity.
    apply String.eqb_eq in E2, E3. subst. rewrite String.eqb_refl in E1. discriminate.
Qed.

Lemma env_lookup_fold H sj (fs : list (string * json)) : forall out q,
  q <> "__proto__" ->
  env_lookup (fold_left (fun out '(k, x) => assign_key out k (env_value H sj x)) fs out) q =
    match assoc_last fs q with
    | Some x => Some (env_value H sj x)
    | None => env_lookup out q
    end.
Proof.
  induction fs as [|[k x] rest IH]; intros out q Hq; cbn [fold_left assoc_last]; [reflexivity|].
  rewrite IH by exact Hq. destruct (assoc_last rest q); [reflexivity|].
  unfold assign_key. destruct (String.eqb k "__proto__") eqn:Ep.
  - apply String.eqb_eq in Ep. subst k.
    destruct (String.eqb "__proto__" q) eqn:E; [apply String.eqb_eq in E; congruence|reflexivity].
  - rewrite env_lookup_assign. destruct (String.eqb k q); reflexivity.
Qed.

Lemma fold_all_proto H sj (fs : list (string * json)) :
  Forall (fun kv => fst kv = "__proto__") fs ->
  fold_left (fun out '(k, x) => assign_key out k (env_value H sj x)) fs [] = [].
Proof.
  induction fs as [|[k x] rest IH]; intros Hf; [reflexivity|].
  inversion Hf as [|? ? Hk Hr]; subst. cbn in Hk. subst k. cbn [fold_left].
  unfold assign_key at 2. rewrite String.eqb_refl. exact (IH Hr).
Qed.

(** X13: [asEnvMap] on a configuration object keeps every key except
    ["__proto__"] (whose assignment does not create a key): reading a key
    of the result gives the object's value for it (its last one), converted
    to a string; the result is [undefined] exactly when the object has no
    other key. *)
Theorem asEnvMap_lookup (H : host) (stringify_json : json -> string)
    (fs : list (string * json)) :
  (asEnvMap H stringify_json (Some (JObj fs)) = None <->
     Forall (fun kv => fst kv = "__proto__") fs) /\
  (forall out, asEnvMap H stringify_json (Some (JObj fs)) = Some out ->
     forall k, k <> "__proto__" ->
       env_lookup out k = option_map (env_value H stringify_json) (assoc_last fs k)).
Proof.
  unfold asEnvMap. cbn [entries]. split.
  - split.
    + intros Hn. apply Forall_forall. intros [k x] Hin. cbn.
      destruct (String.eqb k "__proto__") eqn:Ep; [apply String.eqb_eq, Ep|].
      exfalso. apply String.eqb_neq in Ep.
      pose proof (env_lookup_fold H stringify_json fs [] k Ep) as Hl.
      assert (Ha : exists y, assoc_last fs k = Some y).
      { clear -Hin. induction fs as [|[k' x'] rest IH]; [destruct Hin|]. cbn.
        destruct Hin as [Heq|Hin].
        - injection Heq as -> ->. destruct (assoc_last rest k); [eauto|].
          rewrite String.eqb_refl. eauto.
        - destruct (IH Hin) as [y ->]. eauto. }
      destruct Ha as [y Hy]. rewrite Hy in Hl.
      destruct (fold_left _ fs []) as [|p ps]; [discriminate|]. cbn in Hn. discriminate.
    + intros Hf. rewrite fold_all_proto by exact Hf. reflexivity.
  - intros out Hs k Hk.
    destruct (Nat.ltb 0 _); [|discriminate]. injection Hs as <-.
    rewrite env_lookup_fold by exact Hk. destruct (assoc_last fs k); reflexivity.
Qed.

(** ** Reading the PE header *)

Import PeImage.

Lemma length_read_at (f : list byte) (pos len : nat) :
  List.length (read_at f pos len) = Nat.min len (List.length f - pos).
Proof. unfold read_at. rewrite length_firstn, length_skipn. reflexivity. Qed.

Lemma byte_at_read_at (f : list byte) (pos len i : nat) :
  i < len -> byte_at (read_at f pos len) i = byte_at f (pos + i).
Proof.
  intros Hi. unfold byte_at, read_at. rewrite nth_firstn, nth_skipn.
  rewrite (proj2 (Nat.ltb_lt i len) Hi). reflexivity.
Qed.

Lemma u16_read_at (f : list byte) (pos len off : nat) :
  off + 1 < len -> readUInt16LE (read_at f pos len) off = readUInt16LE f (pos + off).
Proof.
  intros Ho. unfold readUInt16LE.
  rewrite !byte_at_read_at by lia. rewrite Nat.add_assoc. reflexivity.
Qed.

Lemma u32_read_at (f : list byte) (pos len off : nat) :
  off + 3 < len -> readUInt32LE (read_at f pos len) off = readUInt32LE f (pos + off).
Proof.
  intros Ho. unfold readUInt32LE.
  rewrite !u16_read_at by lia. rewrite Nat.add_assoc. reflexivity.
Qed.

Lemma ascii_prefix4_read_at (f : list byte) (pos len : nat) :
  4 <= len -> ascii_prefix4 (read_at f pos len) = ascii_prefix4 (skipn pos f).
Proof.
  intros Hl. unfold ascii_prefix4, read_at. rewrite firstn_firstn.
  replace (Nat.min 4 len) with 4 by lia. reflexivity.
Qed.

Lemma iff_true_and (P Q : Prop) : (P <-> Q) -> (P <-> true = true /\ Q).
Proof. intros HPQ. split; [intros HP; split; [reflexivity | apply HPQ, HP] | intros [_ HQ]; apply HPQ, HQ]. Qed.

(** X14: on a readable file, [win32PeSubsystem] returns a value exactly when
    the platform is win32 and the file holds the 64-byte DOS header and, at
    the offset [e_lfanew] stored at byte 60, 96 more bytes that start with ["PE\0\0"] (each byte
    compared with its high bit cleared, as the ['ascii'] decoder does) and
    carry the optional-header magic 0x10b or 0x20b at offset 24; the value
    is the 16-bit little-endian field at [e_lfanew + 92]. *)
Theorem win32PeSubsystem_spec (is_win32 : bool) (f : list byte) (v : Z) :
  win32PeSubsystem is_win32 (Some f) = Some v <->
  is_win32 = true /\
  (64 <= List.length f)%nat /\
  (Z.to_nat (readUInt32LE f 60) + 96 <= List.length f)%nat /\
  ascii_prefix4 (skipn (Z.to_nat (readUInt32LE f 60)) f) = [80%Z; 69%Z; 0%Z; 0%Z] /\
  (readUInt16LE f (Z.to_nat (readUInt32LE f 60) + 24) = 267%Z \/
   readUInt16LE f (Z.to_nat (readUInt32LE f 60) + 24) = 523%Z) /\
  v = readUInt16LE f (Z.to_nat (readUInt32LE f 60) + 92).
Proof.
  unfold win32PeSubsystem. cbv zeta.
  destruct is_win32; cbn [negb].
  2:{ split; [discriminate|]. intros (Hw & _). discriminate. }
  apply iff_true_and.
  destruct (Nat.eqb (List.length (read_at f 0 64)) 64) eqn:E1; cbn [negb];
    rewrite length_read_at in E1.
  2:{ split; [discriminate|]. intros (Hl & _). apply Nat.eqb_neq in E1. lia. }
  apply Nat.eqb_eq in E1.
  rewrite u32_read_at by lia. cbn [Nat.add].
  set (off := Z.to_nat (readUInt32LE f 60)).
  destruct (Nat.eqb (List.length (read_at f off 96)) 96) eqn:E2;
    cbn [negb]; rewrite length_read_at in E2.
  2:{ split; [discriminate|]. intros (_ & Hl & _). apply Nat.eqb_neq in E2. lia. }
  apply Nat.eqb_eq in E2.
  rewrite ascii_prefix4_read_at by lia.
  rewrite !u16_read_at by lia.
  destruct (list_eq_dec Z.eq_dec (ascii_prefix4 (skipn off f)) [80%Z; 69%Z; 0%Z; 0%Z]) as [Hs|Hs];
    cbn [negb].
  2:{ split; [discriminate|]. intros (_ & _ & Hs' & _). contradiction. }
  destruct (Z.eqb_spec (readUInt16LE f (off + 24)) 267%Z) as [Hm|Hm];
  destruct (Z.eqb_spec (readUInt16LE f (off + 24)) 523%Z) as [Hm'|Hm']; cbn [negb andb].
  1-3: split; [intros Hv; injection Hv as <-; repeat split; try lia; try exact Hs|].
  1-3: try (left; exact Hm); try (right; exact Hm').
  1-3: intros (_ & _ & _ & _ & ->); reflexivity.
  split; [discriminate|]. intros (_ & _ & _ & [Hx|Hx] & _); contradiction.
Qed.

End AdapterFacts.
